(** * i2c: register-level access to a Linux I2C character device

    A shallow embedding of [src/i2c.go] (package [i2c]).  The Go methods on
    [*I2C] become functions in a small state-and-panic monad over a model of
    the operating system: the log of the calls made to it, and the table of
    open file descriptors with the slave address each one is bound to.  What
    the operating system answers (success, errno, bytes delivered) is left to
    a [Kernel] record of answer functions, so the theorems hold for every
    device and every failure pattern. *)

From Stdlib Require Import ZArith Lia DecimalString DecimalZ DecimalPos.
From stdpp Require Import gmap list strings.

Local Open Scope Z_scope.

(** ** Go's fixed-width integers, as [Z] with the wrap-around written out *)

Module U8.
Definition wrap (x : Z) : Z := x mod 2 ^ 8.
Definition ok (x : Z) : Prop := 0 <= x < 2 ^ 8.
End U8.

Module U16.
Definition wrap (x : Z) : Z := x mod 2 ^ 16.
Definition ok (x : Z) : Prop := 0 <= x < 2 ^ 16.
Definition add (a b : Z) : Z := wrap (a + b).
Definition mul (a b : Z) : Z := wrap (a * b).
Definition shl (a k : Z) : Z := wrap (Z.shiftl a k).
Definition shr (a k : Z) : Z := Z.shiftr a k.
Definition and (a b : Z) : Z := Z.land a b.
End U16.

Module I16.
Definition wrap (x : Z) : Z := (x + 2 ^ 15) mod 2 ^ 16 - 2 ^ 15.
Definition ok (x : Z) : Prop := - 2 ^ 15 <= x < 2 ^ 15.
Definition add (a b : Z) : Z := wrap (a + b).
Definition shl (a k : Z) : Z := wrap (Z.shiftl a k).
(* [>>] on a signed operand is an arithmetic shift: it rounds towards
   minus infinity, which is what [Z.shiftr] does on a negative number. *)
Definition shr (a k : Z) : Z := Z.shiftr a k.
(* two's complement [&]: [Z.land] works on the infinite two's complement
   representation, so [Z.land (-1) 0xFF = 0xFF]. *)
Definition and (a b : Z) : Z := Z.land a b.
End I16.

(** Conversions [T(x)] between the integer types. *)
Definition byte_of_uint16 (x : Z) : Z := U8.wrap x.
Definition byte_of_int16 (x : Z) : Z := U8.wrap x.
Definition uint16_of_byte (b : Z) : Z := b.
Definition int16_of_byte (b : Z) : Z := b.
Definition uint16_of_int16 (x : Z) : Z := U16.wrap x.
Definition int16_of_uint16 (x : Z) : Z := I16.wrap x.

(** ** The operating system, as this package sees it *)

(** Go [error] values that reach this package: the [syscall.Errno] returned
    by [ioctl], the [*os.PathError] of the [os.File] operations, and the
    [io.EOF] of a read that delivers nothing. *)
Inductive error : Type :=
| Errno (errno : Z)
| PathError (op : string) (errno : Z)
| EOF.

(** [*os.File]: identified by its descriptor. *)
Record File : Type := { Fd : Z }.

(** One entry per call made to the operating system. *)
Inductive Event : Type :=
| EvOpen (path : string) (flag perm : Z)
| EvIoctl (fd cmd arg : Z)
| EvWrite (fd : Z) (buf : list Z)
| EvRead (fd : Z) (len : nat)
| EvClose (fd : Z).

#[global] Instance Event_eq_dec : EqDecision Event.
Proof. solve_decision. Defined.

(** The answers of the operating system, given the calls made so far. *)
Record Kernel : Type := {
  k_open  : list Event -> string -> option error;
  k_ioctl : list Event -> Z -> Z -> Z -> Z;
  k_write : list Event -> Z -> list Z -> Z * option error;
  k_read  : list Event -> Z -> nat -> list Z * option error;
  k_close : list Event -> Z -> option error
}.

(** What the descriptor table records for an open file. *)
Record FileInfo : Type := {
  f_path : string;
  f_slave : option Z
}.

Record World : Type := {
  trace : list Event;
  files : gmap Z FileInfo;
  next_fd : Z
}.

Definition log (e : Event) (w : World) : World :=
  {| trace := trace w ++ [e]; files := files w; next_fd := next_fd w |}.

(** ** Computations: state passing over [World], with Go's run-time panics *)

Inductive Outcome (A : Type) : Type :=
| Ret (a : A)
| Panic (msg : string).
Arguments Ret {A} a.
Arguments Panic {A} msg.

Definition M (A : Type) : Type := World -> Outcome A * World.

Definition ret {A : Type} (a : A) : M A := fun w => (Ret a, w).

Definition panic {A : Type} (msg : string) : M A := fun w => (Panic msg, w).

Definition bind {A B : Type} (m : M A) (k : A -> M B) : M B :=
  fun w =>
    match m w with
    | (Ret a, w') => k a w'
    | (Panic msg, w') => (Panic msg, w')
    end.

Notation "'let*' p ':=' m 'in' k" := (bind m (fun p => k))
  (at level 10, p pattern, m at level 100, k at level 200).

(** [make([]byte, n)]: a zeroed slice; a negative length panics. *)
Definition make_bytes (n : Z) : M (list Z) :=
  if n <? 0 then panic "makeslice: len out of range"
  else ret (replicate (Z.to_nat n) 0).

(** [buf[i]]: an index out of range panics. *)
Definition index (buf : list Z) (i : nat) : M Z :=
  match buf !! i with
  | Some b => ret b
  | None => panic "index out of range"
  end.

(** [copy(dst, src)] as a read does it: the delivered bytes overwrite a
    prefix of the buffer, the rest of the buffer keeps its contents. *)
Definition fill (buf data : list Z) : list Z :=
  let got := take (length buf) (map U8.wrap data) in
  got ++ drop (length got) buf.

(** What [f.Read(buf)] hands back for the bytes and the error of the
    underlying read: the new contents of the buffer, the count, the error.
    A failed read leaves the buffer alone and counts 0.  A read into a
    buffer that is not empty which delivers no byte and no error is the end
    of the file: [io.EOF]. *)
Definition read_answer (buf data : list Z) (err : option error)
  : list Z * Z * option error :=
  match err with
  | Some e => (buf, 0, Some e)
  | None =>
      match buf, take (length buf) data with
      | _ :: _, [] => (buf, 0, Some EOF)
      | _, got => (fill buf data, Z.of_nat (length got), None)
      end
  end.

Definition i2cSlave : Z := 0x0703.

Definition O_RDWR : Z := 2.

(** The octal literal [0600]. *)
Definition perm_0600 : Z := 6 * 8 ^ 2.

(** ** The collaborators: [os.OpenFile], [os.File] and [syscall.Syscall6] *)

Section Collaborators.
Context (K : Kernel).

(** [os.OpenFile(name, flag, perm)]: either a file or an error.  On
    success a new descriptor enters the table, not yet bound to any slave
    address. *)
Definition OpenFile (name : string) (flag perm : Z) : M (File + error) :=
  fun w =>
    let t := trace w ++ [EvOpen name flag perm] in
    match k_open K (trace w) name with
    | Some e =>
        (Ret (inr e),
         {| trace := t; files := files w; next_fd := next_fd w |})
    | None =>
        let fd := next_fd w in
        (Ret (inl {| Fd := fd |}),
         {| trace := t;
            files := <[fd := {| f_path := name; f_slave := None |}]> (files w);
            next_fd := fd + 1 |})
    end.

(** [syscall.Syscall6(SYS_IOCTL, fd, cmd, arg, 0, 0, 0)], returning the
    errno.  A successful [I2C_SLAVE] request binds the descriptor to the
    slave address [arg]. *)
Definition Syscall6_IOCTL (fd cmd arg : Z) : M Z :=
  fun w =>
    let errno := k_ioctl K (trace w) fd cmd arg in
    (Ret errno,
     {| trace := trace w ++ [EvIoctl fd cmd arg];
        files :=
          if (errno =? 0) && (cmd =? i2cSlave)
          then alter (fun i => {| f_path := f_path i; f_slave := Some arg |})
                     fd (files w)
          else files w;
        next_fd := next_fd w |}).

(** [f.Write(buf)] *)
Definition File_Write (f : File) (buf : list Z) : M (Z * option error) :=
  fun w => (Ret (k_write K (trace w) (Fd f) buf), log (EvWrite (Fd f) buf) w).

(** [f.Read(buf)]: the buffer is mutated in place, so the new contents are
    returned with the count and the error. *)
Definition File_Read (f : File) (buf : list Z)
  : M (list Z * Z * option error) :=
  fun w =>
    let '(data, err) := k_read K (trace w) (Fd f) (length buf) in
    (Ret (read_answer buf data err), log (EvRead (Fd f) (length buf)) w).

(** [f.Close()]: the descriptor leaves the table. *)
Definition File_Close (f : File) : M (option error) :=
  fun w =>
    (Ret (k_close K (trace w) (Fd f)),
     {| trace := trace w ++ [EvClose (Fd f)];
        files := delete (Fd f) (files w);
        next_fd := next_fd w |}).

End Collaborators.

(** ** Package [i2c] *)

(** [type I2C struct { rc *os.File }].  No method assigns to [rc], so the
    receiver [v *I2C] is passed as a value and stays the same connection
    from one call to the next. *)
Record I2C : Type := { rc : File }.

(** [fmt.Sprintf("/dev/i2c-%d", bus)] *)
Definition dev_path (bus : Z) : string :=
  "/dev/i2c-" +:+ NilZero.string_of_int (Z.to_int bus).

Section Package.
Context (K : Kernel).

Definition ioctl (fd cmd arg : Z) : M (option error) :=
  let* err := Syscall6_IOCTL K fd cmd arg in
  if negb (err =? 0) then ret (Some (Errno err))
  else ret None.

Definition NewI2C (addr : Z) (bus : Z) : M (option I2C * option error) :=
  let* r := OpenFile K (dev_path bus) O_RDWR perm_0600 in
  match r with
  | inr err => ret (None, Some err)
  | inl f =>
      let* err := ioctl (Fd f) i2cSlave addr in
      match err with
      | Some err => ret (None, Some err)
      | None =>
          let v := {| rc := f |} in
          ret (Some v, None)
      end
  end.

Definition write (v : I2C) (buf : list Z) : M (Z * option error) :=
  File_Write K (rc v) buf.

Definition WriteBytes (v : I2C) (buf : list Z) : M (Z * option error) :=
  write v buf.

Definition read (v : I2C) (buf : list Z) : M (list Z * Z * option error) :=
  File_Read K (rc v) buf.

Definition ReadBytes (v : I2C) (buf : list Z)
  : M (list Z * Z * option error) :=
  let* (buf, n, err) := read v buf in
  ret (buf, n, err).

Definition Close (v : I2C) : M (option error) :=
  File_Close K (rc v).

(** The nil slice of the error returns is the empty list. *)
Definition ReadRegBytes (v : I2C) (reg : Z) (n : Z)
  : M (list Z * Z * option error) :=
  let* (_, err) := WriteBytes v [reg] in
  match err with
  | Some err => ret ([], 0, Some err)
  | None =>
      let* buf := make_bytes n in
      let* (buf, c, err) := ReadBytes v buf in
      match err with
      | Some err => ret ([], 0, Some err)
      | None => ret (buf, c, None)
      end
  end.

Definition ReadRegU8 (v : I2C) (reg : Z) : M (Z * option error) :=
  let* (_, err) := WriteBytes v [reg] in
  match err with
  | Some err => ret (0, Some err)
  | None =>
      let* buf := make_bytes 1 in
      let* (buf, _, err) := ReadBytes v buf in
      match err with
      | Some err => ret (0, Some err)
      | None =>
          let* b0 := index buf 0 in
          ret (b0, None)
      end
  end.

Definition WriteRegU8 (v : I2C) (reg : Z) (value : Z) : M (option error) :=
  let buf := [reg; value] in
  let* (_, err) := WriteBytes v buf in
  match err with
  | Some err => ret (Some err)
  | None => ret None
  end.

Definition ReadRegU16BE (v : I2C) (reg : Z) : M (Z * option error) :=
  let* (_, err) := WriteBytes v [reg] in
  match err with
  | Some err => ret (0, Some err)
  | None =>
      let* buf := make_bytes 2 in
      let* (buf, _, err) := ReadBytes v buf in
      match err with
      | Some err => ret (0, Some err)
      | None =>
          let* b0 := index buf 0 in
          let* b1 := index buf 1 in
          let w := U16.add (U16.shl (uint16_of_byte b0) 8) (uint16_of_byte b1) in
          ret (w, None)
      end
  end.

Definition ReadRegU16LE (v : I2C) (reg : Z) : M (Z * option error) :=
  let* (w, err) := ReadRegU16BE v reg in
  match err with
  | Some err => ret (0, Some err)
  | None =>
      (* exchange bytes *)
      let w := U16.add (U16.shl (U16.and w 0xFF) 8) (U16.shr w 8) in
      ret (w, None)
  end.

Definition ReadRegS16BE (v : I2C) (reg : Z) : M (Z * option error) :=
  let* (_, err) := WriteBytes v [reg] in
  match err with
  | Some err => ret (0, Some err)
  | None =>
      let* buf := make_bytes 2 in
      let* (buf, _, err) := ReadBytes v buf in
      match err with
      | Some err => ret (0, Some err)
      | None =>
          let* b0 := index buf 0 in
          let* b1 := index buf 1 in
          let w := I16.add (I16.shl (int16_of_byte b0) 8) (int16_of_byte b1) in
          ret (w, None)
      end
  end.

Definition ReadRegS16LE (v : I2C) (reg : Z) : M (Z * option error) :=
  let* (w, err) := ReadRegS16BE v reg in
  match err with
  | Some err => ret (0, Some err)
  | None =>
      (* exchange bytes *)
      let w := I16.add (I16.shl (I16.and w 0xFF) 8) (I16.shr w 8) in
      ret (w, None)
  end.

Definition WriteRegU16BE (v : I2C) (reg : Z) (value : Z) : M (option error) :=
  let buf := [reg;
              byte_of_uint16 (U16.shr (U16.and value 0xFF00) 8);
              byte_of_uint16 (U16.and value 0xFF)] in
  let* (_, err) := WriteBytes v buf in
  match err with
  | Some err => ret (Some err)
  | None => ret None
  end.

Definition WriteRegU16LE (v : I2C) (reg : Z) (value : Z) : M (option error) :=
  let w := U16.add (U16.shr (U16.mul value 0xFF00) 8) (U16.shl value 8) in
  WriteRegU16BE v reg w.

Definition WriteRegS16BE (v : I2C) (reg : Z) (value : Z) : M (option error) :=
  let buf := [reg;
              byte_of_uint16 (U16.shr (U16.and (uint16_of_int16 value) 0xFF00) 8);
              byte_of_int16 (I16.and value 0xFF)] in
  let* (_, err) := WriteBytes v buf in
  match err with
  | Some err => ret (Some err)
  | None => ret None
  end.

Definition WriteRegS16LE (v : I2C) (reg : Z) (value : Z) : M (option error) :=
  let w := I16.add
             (int16_of_uint16
                (U16.shr (U16.mul (uint16_of_int16 value) 0xFF00) 8))
             (I16.shl value 8) in
  WriteRegS16BE v reg w.

End Package.

(** ** The words of the specification, for comparison with the code *)

Module Spec.
(** "swapping a 16-bit word means producing [((w & 0xFF) << 8) | (w >> 8)]" *)
Definition swap (w : Z) : Z :=
  Z.lor (Z.shiftl (Z.land w 0xFF) 8) (Z.shiftr w 8).

(** High and low byte of an unsigned 16-bit word. *)
Definition hi (w : Z) : Z := w / 2 ^ 8.
Definition lo (w : Z) : Z := w mod 2 ^ 8.

(** The 16-bit two's complement pattern of a signed value. *)
Definition pattern (x : Z) : Z := x mod 2 ^ 16.

(** The signed value of a 16-bit pattern. *)
Definition signed (p : Z) : Z := if p <? 2 ^ 15 then p else p - 2 ^ 16.
End Spec.

(** ** Sessions: the calls a client can make on a connection *)

Inductive Call : Type :=
| CWriteBytes (buf : list Z)
| CReadBytes (buf : list Z)
| CClose
| CReadRegBytes (reg n : Z)
| CReadRegU8 (reg : Z)
| CWriteRegU8 (reg value : Z)
| CReadRegU16BE (reg : Z)
| CReadRegU16LE (reg : Z)
| CReadRegS16BE (reg : Z)
| CReadRegS16LE (reg : Z)
| CWriteRegU16BE (reg value : Z)
| CWriteRegU16LE (reg value : Z)
| CWriteRegS16BE (reg value : Z)
| CWriteRegS16LE (reg value : Z).

Definition discard {A : Type} (m : M A) : M unit :=
  let* _ := m in ret tt.

Definition perform (K : Kernel) (v : I2C) (c : Call) : M unit :=
  match c with
  | CWriteBytes buf => discard (WriteBytes K v buf)
  | CReadBytes buf => discard (ReadBytes K v buf)
  | CClose => discard (Close K v)
  | CReadRegBytes reg n => discard (ReadRegBytes K v reg n)
  | CReadRegU8 reg => discard (ReadRegU8 K v reg)
  | CWriteRegU8 reg value => discard (WriteRegU8 K v reg value)
  | CReadRegU16BE reg => discard (ReadRegU16BE K v reg)
  | CReadRegU16LE reg => discard (ReadRegU16LE K v reg)
  | CReadRegS16BE reg => discard (ReadRegS16BE K v reg)
  | CReadRegS16LE reg => discard (ReadRegS16LE K v reg)
  | CWriteRegU16BE reg value => discard (WriteRegU16BE K v reg value)
  | CWriteRegU16LE reg value => discard (WriteRegU16LE K v reg value)
  | CWriteRegS16BE reg value => discard (WriteRegS16BE K v reg value)
  | CWriteRegS16LE reg value => discard (WriteRegS16LE K v reg value)
  end.

Fixpoint session (K : Kernel) (v : I2C) (cs : list Call) : M unit :=
  match cs with
  | [] => ret tt
  | c :: cs => let* _ := perform K v c in session K v cs
  end.

(** An event of a connection's own traffic: a transfer on its descriptor,
    or closing it.  Opening a file and [ioctl] are not. *)
Definition own_traffic (fd : Z) (e : Event) : Prop :=
  match e with
  | EvWrite fd' _ | EvRead fd' _ | EvClose fd' => fd' = fd
  | EvOpen _ _ _ | EvIoctl _ _ _ => False
  end.

(** [w'] comes after [w] in the life of the connection on [fd]: only that
    connection's own traffic was added to the log, and the entry of [fd] in
    the descriptor table is what it was, until a [Close] removes it. *)
Definition evolves (fd : Z) (w w' : World) : Prop :=
  exists evs,
    trace w' = trace w ++ evs
    /\ Forall (own_traffic fd) evs
    /\ (EvClose fd ∉ evs -> files w' !! fd = files w !! fd)
    /\ (EvClose fd ∈ evs -> files w' !! fd = None).

Definition preserves {A : Type} (fd : Z) (m : M A) : Prop :=
  forall w, evolves fd w (snd (m w)).

(** The register reads that make two transfers (index write, value read),
    with the number of bytes each one asks for. *)
Inductive RegRead : Type :=
| RBytes (n : Z)
| RU8
| RU16BE
| RU16LE
| RS16BE
| RS16LE.

Definition wanted (op : RegRead) : Z :=
  match op with
  | RBytes n => n
  | RU8 => 1
  | RU16BE | RU16LE | RS16BE | RS16LE => 2
  end.

(** The error result of a register read. *)
Definition reg_read (K : Kernel) (v : I2C) (reg : Z) (op : RegRead)
  : M (option error) :=
  match op with
  | RBytes n => let* (_, _, err) := ReadRegBytes K v reg n in ret err
  | RU8 => let* (_, err) := ReadRegU8 K v reg in ret err
  | RU16BE => let* (_, err) := ReadRegU16BE K v reg in ret err
  | RU16LE => let* (_, err) := ReadRegU16LE K v reg in ret err
  | RS16BE => let* (_, err) := ReadRegS16BE K v reg in ret err
  | RS16LE => let* (_, err) := ReadRegS16LE K v reg in ret err
  end.

(** The byte a read leaves at position [i] of a fresh zeroed buffer when the
    device delivers [data]: a position the device did not fill stays 0. *)
Definition byte_at (data : list Z) (i : nat) : Z := U8.wrap (nth i data 0).

(** ** Test doubles for the operating system *)

(** A freshly booted process: nothing logged, no descriptor beyond the
    three standard streams. *)
Definition boot : World := {| trace := []; files := ∅; next_fd := 3 |}.

(** A kernel with fixed answers: the outcome of opening, the errno of the
    bind request, the outcome of every write, and the bytes and outcome of
    every read. *)
Definition scripted (open_err : option error) (bind_errno : Z)
    (write_err : option error) (resp : list Z) (read_err : option error)
  : Kernel :=
  {| k_open := fun _ _ => open_err;
     k_ioctl := fun _ _ _ _ => bind_errno;
     k_write := fun _ _ buf =>
       match write_err with
       | Some e => (0, Some e)
       | None => (Z.of_nat (length buf), None)
       end;
     k_read := fun _ _ _ => (resp, read_err);
     k_close := fun _ _ => None |}.

(** The payload (all bytes after the register index) of the latest write of
    more than one byte on [fd]. *)
Definition last_payload (fd : Z) (t : list Event) : list Z :=
  foldl (fun acc e =>
           match e with
           | EvWrite fd' (_ :: b :: p) => if decide (fd' = fd) then b :: p else acc
           | _ => acc
           end) [] t.

(** A loopback device: every read returns the payload written last. *)
Definition loopback : Kernel :=
  {| k_open := fun _ _ => None;
     k_ioctl := fun _ _ _ _ => 0;
     k_write := fun _ _ buf => (Z.of_nat (length buf), None);
     k_read := fun t fd n => (take n (last_payload fd t), None);
     k_close := fun _ _ => None |}.

(** A device that always delivers one byte fewer than it is asked for. *)
Definition one_short (resp : list Z) : Kernel :=
  {| k_open := fun _ _ => None;
     k_ioctl := fun _ _ _ _ => 0;
     k_write := fun _ _ buf => (Z.of_nat (length buf), None);
     k_read := fun _ _ n => (take (pred n) resp, None);
     k_close := fun _ _ => None |}.

(** The round trip of the specification's test: write a signed word, then
    read the same register back. *)
Definition roundtrip_S16BE (K : Kernel) (v : I2C) (reg value : Z)
  : M (Z * option error) :=
  let* err := WriteRegS16BE K v reg value in
  match err with
  | Some err => ret (0, Some err)
  | None => ReadRegS16BE K v reg
  end.

Definition EIO : Z := 5.
Definition EBUSY : Z := 16.
Definition EREMOTEIO : Z := 121.

(** The connection on the first descriptor a booted process gets. *)
Definition conn3 : I2C := {| rc := {| Fd := 3 |} |}.

(** The world right after [NewI2C 0x48 1] succeeded from [boot]. *)
Definition opened : World :=
  {| trace := [EvOpen (dev_path 1) O_RDWR perm_0600; EvIoctl 3 i2cSlave 0x48];
     files := {[ 3 := {| f_path := dev_path 1; f_slave := Some 0x48 |} ]};
     next_fd := 4 |}.

(** ** Vocabulary for the further properties *)

(** A typed read result fits its type, and is 0 when an error comes with
    it; a panic does not fit. *)
Definition fits (ok : Z -> Prop) (o : Outcome (Z * option error)) : Prop :=
  match o with
  | Ret (x, err) => ok x /\ (err <> None -> x = 0)
  | Panic _ => False
  end.

(** Applies [f] to the value of a successful typed read and leaves an error
    result as it is. *)
Definition map_value (f : Z -> Z) (r : Outcome (Z * option error) * World)
  : Outcome (Z * option error) * World :=
  match r with
  | (Ret (x, None), w) => (Ret (f x, None), w)
  | _ => r
  end.

(** Write a byte, or an unsigned word, to a register and read it back. *)
Definition roundtrip_U8 (K : Kernel) (v : I2C) (reg value : Z)
  : M (Z * option error) :=
  let* err := WriteRegU8 K v reg value in
  match err with
  | Some err => ret (0, Some err)
  | None => ReadRegU8 K v reg
  end.

Definition roundtrip_U16BE (K : Kernel) (v : I2C) (reg value : Z)
  : M (Z * option error) :=
  let* err := WriteRegU16BE K v reg value in
  match err with
  | Some err => ret (0, Some err)
  | None => ReadRegU16BE K v reg
  end.

(** * Properties *)

(** ** Arithmetic of the fixed-width operations *)

Lemma land_0xFF a : Z.land a 0xFF = a mod 2 ^ 8.
Proof. change 0xFF with (Z.ones 8). apply Z.land_ones. lia. Qed.

Lemma shiftr_8 a : Z.shiftr a 8 = a / 2 ^ 8.
Proof. apply Z.shiftr_div_pow2. lia. Qed.

Lemma shiftl_8 a : Z.shiftl a 8 = a * 2 ^ 8.
Proof. apply Z.shiftl_mul_pow2. lia. Qed.

Lemma land_0xFF00_shiftr_8 a :
  Z.shiftr (Z.land a 0xFF00) 8 = (a / 2 ^ 8) mod 2 ^ 8.
Proof.
  rewrite Z.shiftr_land. change (Z.shiftr 0xFF00 8) with 0xFF.
  now rewrite land_0xFF, shiftr_8.
Qed.

(** Turns a goal about the fixed-width operations into one about [/] and
    [mod] on [Z]. *)
Ltac words :=
  unfold byte_of_uint16, byte_of_int16, uint16_of_byte, int16_of_byte,
    uint16_of_int16, int16_of_uint16, Spec.hi, Spec.lo, Spec.pattern,
    Spec.signed, U16.add, U16.mul, U16.shl, U16.shr, U16.and, U16.ok,
    I16.add, I16.shl, I16.shr, I16.and, I16.ok, U8.ok in *;
  unfold U16.wrap, I16.wrap, U8.wrap in *;
  rewrite ?land_0xFF00_shiftr_8, ?land_0xFF, ?shiftr_8, ?shiftl_8 in *;
  change (2 ^ 8) with 256 in *;
  change (2 ^ 15) with 32768 in *;
  change (2 ^ 16) with 65536 in *.

Ltac split_ltb :=
  repeat match goal with
         | |- context [?a <? ?b] => destruct (Z.ltb_spec a b)
         end.

Ltac words_lia := words; split_ltb; Z.div_mod_to_equations; lia.

(** [|] of a shifted word and a byte is their sum: the bits do not meet. *)
Lemma lor_shiftl_8 x y :
  0 <= y < 2 ^ 8 -> Z.lor (Z.shiftl x 8) y = x * 2 ^ 8 + y.
Proof.
  intros Hy. rewrite <- Z.shiftl_mul_pow2 by lia.
  rewrite <- Z.lxor_lor, <- Z.add_nocarry_lxor; trivial.
  all: apply Z.bits_inj'; intros n Hn; rewrite Z.land_spec, Z.bits_0.
  all: destruct (Z.lt_ge_cases n 8).
  all: try (rewrite Z.shiftl_spec_low by lia; reflexivity).
  all: rewrite <- (Z.mod_small y (2 ^ 8)) by lia.
  all: rewrite Z.mod_pow2_bits_high by lia; apply andb_false_r.
Qed.

(** On a 16-bit word the swap of the specification exchanges the bytes. *)
Lemma swap_hi_lo w :
  U16.ok w -> Spec.swap w = Spec.lo w * 256 + Spec.hi w.
Proof.
  intros Hw. unfold Spec.swap. rewrite lor_shiftl_8; words_lia.
Qed.

Lemma swap_ok w : U16.ok w -> U16.ok (Spec.swap w).
Proof. intros Hw. rewrite swap_hi_lo by trivial. words_lia. Qed.

Lemma byte_at_ok data i : U8.ok (byte_at data i).
Proof. unfold byte_at. words_lia. Qed.

Lemma byte_at_unfilled data i : (length data <= i)%nat -> byte_at data i = 0.
Proof. intros Hi. unfold byte_at. now rewrite nth_overflow. Qed.

(** [uint16(b0)<<8 + uint16(b1)] *)
Lemma be_u16 b0 b1 :
  U8.ok b0 -> U8.ok b1 ->
  U16.add (U16.shl (uint16_of_byte b0) 8) (uint16_of_byte b1) = b0 * 256 + b1.
Proof. intros. words_lia. Qed.

(** [int16(b0)<<8 + int16(b1)] *)
Lemma be_i16 b0 b1 :
  U8.ok b0 -> U8.ok b1 ->
  I16.add (I16.shl (int16_of_byte b0) 8) (int16_of_byte b1)
  = Spec.signed (b0 * 256 + b1).
Proof. intros. words_lia. Qed.

(** [(w&0xFF)<<8 + w>>8] on a [uint16] is the swap of the specification. *)
Lemma exchange_u16 w :
  U16.ok w ->
  U16.add (U16.shl (U16.and w 0xFF) 8) (U16.shr w 8) = Spec.swap w.
Proof. intros Hw. rewrite swap_hi_lo by trivial. words_lia. Qed.

(** [(w&0xFF)<<8 + w>>8] on an [int16]: the shift is arithmetic, so a
    negative [w] brings its sign bits into the high byte, which then holds
    the old low byte minus one. *)
Lemma exchange_i16 b0 b1 :
  U8.ok b0 -> U8.ok b1 ->
  let w := Spec.signed (b0 * 256 + b1) in
  I16.add (I16.shl (I16.and w 0xFF) 8) (I16.shr w 8)
  = Spec.signed (if b0 <? 128 then b1 * 256 + b0
                 else (b1 - 1) mod 256 * 256 + b0).
Proof. intros H0 H1 w. subst w. words_lia. Qed.

(** The two payload bytes of [WriteRegS16BE] hold the value. *)
Lemma s16be_payload value :
  I16.ok value ->
  Spec.signed
    (byte_of_uint16 (U16.shr (U16.and (uint16_of_int16 value) 0xFF00) 8) * 256
     + byte_of_int16 (I16.and value 0xFF)) = value.
Proof. intros. words_lia. Qed.

Lemma s16be_payload_ok value :
  U8.ok (byte_of_uint16 (U16.shr (U16.and (uint16_of_int16 value) 0xFF00) 8))
  /\ U8.ok (byte_of_int16 (I16.and value 0xFF)).
Proof. split; words_lia. Qed.

(** What [WriteRegU16LE] hands to the big-endian writer: the low byte of the
    value on top, and the negated low byte below it. *)
Lemma u16le_word value :
  U16.ok value ->
  U16.add (U16.shr (U16.mul value 0xFF00) 8) (U16.shl value 8)
  = Spec.lo value * 256 + (- value) mod 256.
Proof. intros. words_lia. Qed.

(** ** One call at a time *)

Lemma fill_1 data : fill [0] data = [byte_at data 0].
Proof. destruct data; reflexivity. Qed.

Lemma fill_2 data : fill [0; 0] data = [byte_at data 0; byte_at data 1].
Proof. destruct data as [|d0 [|d1 rest]]; reflexivity. Qed.

Lemma WriteBytes_run K v buf w :
  WriteBytes K v buf w
  = (Ret (k_write K (trace w) (Fd (rc v)) buf), log (EvWrite (Fd (rc v)) buf) w).
Proof. reflexivity. Qed.

Lemma read_answer_ok buf data :
  buf = [] \/ data <> [] ->
  read_answer buf data None
  = (fill buf data, Z.of_nat (length (take (length buf) data)), None).
Proof.
  intros H. unfold read_answer.
  destruct buf as [|b buf]; [reflexivity |].
  destruct data as [|d data]; [| reflexivity].
  destruct H; congruence.
Qed.

Lemma read_answer_eof buf :
  buf <> [] -> read_answer buf [] None = (buf, 0, Some EOF).
Proof. intros H. destruct buf; [congruence | reflexivity]. Qed.

Lemma ReadBytes_run K v buf w data err :
  k_read K (trace w) (Fd (rc v)) (length buf) = (data, err) ->
  ReadBytes K v buf w
  = (Ret (read_answer buf data err), log (EvRead (Fd (rc v)) (length buf)) w).
Proof.
  intros Hr. unfold ReadBytes, read, File_Read, bind, ret. rewrite Hr.
  now destruct (read_answer buf data err) as [[b n] e].
Qed.

(** Symbolic execution of the two transfers of a register read. *)
Ltac index_write H :=
  unfold bind at 1; rewrite WriteBytes_run, H; cbn [bind ret].

(** Side conditions of the lemmas below: a kernel answer at hand, or a
    response that is visibly not empty. *)
Ltac side := solve [eassumption | discriminate | congruence].

Ltac value_read H :=
  unfold bind, make_bytes, ret;
  cbn [Z.ltb Z.compare Z.to_nat Pos.to_nat Pos.iter_op Nat.add replicate];
  erewrite ReadBytes_run by (cbn [length trace log]; exact H).

Section Runs.
Context (K : Kernel) (v : I2C) (reg : Z) (w : World).

Local Abbreviation fd := (Fd (rc v)).
Local Abbreviation w1 := (log (EvWrite fd [reg]) w).

Lemma ReadRegU8_nack c e :
  k_write K (trace w) fd [reg] = (c, Some e) ->
  ReadRegU8 K v reg w = (Ret (0, Some e), w1).
Proof. intros Hw. unfold ReadRegU8. now index_write Hw. Qed.

Lemma ReadRegU8_read_error c data e :
  k_write K (trace w) fd [reg] = (c, None) ->
  k_read K (trace w1) fd 1 = (data, Some e) ->
  ReadRegU8 K v reg w = (Ret (0, Some e), log (EvRead fd 1) w1).
Proof.
  intros Hw Hr. unfold ReadRegU8. index_write Hw. now value_read Hr.
Qed.

Lemma ReadRegU8_eof c :
  k_write K (trace w) fd [reg] = (c, None) ->
  k_read K (trace w1) fd 1 = ([], None) ->
  ReadRegU8 K v reg w = (Ret (0, Some EOF), log (EvRead fd 1) w1).
Proof.
  intros Hw Hr. unfold ReadRegU8. index_write Hw. now value_read Hr.
Qed.

Lemma ReadRegU8_ok c data :
  k_write K (trace w) fd [reg] = (c, None) ->
  k_read K (trace w1) fd 1 = (data, None) ->
  data <> [] ->
  ReadRegU8 K v reg w
  = (Ret (byte_at data 0, None),
     log (EvRead fd 1) w1).
Proof.
  intros Hw Hr Hne. unfold ReadRegU8. index_write Hw. value_read Hr.
  rewrite read_answer_ok by now right.
  now rewrite fill_1.
Qed.

Lemma ReadRegU16BE_nack c e :
  k_write K (trace w) fd [reg] = (c, Some e) ->
  ReadRegU16BE K v reg w = (Ret (0, Some e), w1).
Proof. intros Hw. unfold ReadRegU16BE. now index_write Hw. Qed.

Lemma ReadRegU16BE_read_error c data e :
  k_write K (trace w) fd [reg] = (c, None) ->
  k_read K (trace w1) fd 2 = (data, Some e) ->
  ReadRegU16BE K v reg w = (Ret (0, Some e), log (EvRead fd 2) w1).
Proof.
  intros Hw Hr. unfold ReadRegU16BE. index_write Hw. now value_read Hr.
Qed.

Lemma ReadRegU16BE_eof c :
  k_write K (trace w) fd [reg] = (c, None) ->
  k_read K (trace w1) fd 2 = ([], None) ->
  ReadRegU16BE K v reg w = (Ret (0, Some EOF), log (EvRead fd 2) w1).
Proof.
  intros Hw Hr. unfold ReadRegU16BE. index_write Hw. now value_read Hr.
Qed.

Lemma ReadRegU16BE_ok c data :
  k_write K (trace w) fd [reg] = (c, None) ->
  k_read K (trace w1) fd 2 = (data, None) ->
  data <> [] ->
  ReadRegU16BE K v reg w
  = (Ret (byte_at data 0 * 256 + byte_at data 1, None),
     log (EvRead fd 2) w1).
Proof.
  intros Hw Hr Hne. unfold ReadRegU16BE. index_write Hw. value_read Hr.
  rewrite read_answer_ok by now right.
  rewrite fill_2. cbn [index lookup list_lookup ret].
  now rewrite be_u16 by apply byte_at_ok.
Qed.

Lemma ReadRegS16BE_nack c e :
  k_write K (trace w) fd [reg] = (c, Some e) ->
  ReadRegS16BE K v reg w = (Ret (0, Some e), w1).
Proof. intros Hw. unfold ReadRegS16BE. now index_write Hw. Qed.

Lemma ReadRegS16BE_read_error c data e :
  k_write K (trace w) fd [reg] = (c, None) ->
  k_read K (trace w1) fd 2 = (data, Some e) ->
  ReadRegS16BE K v reg w = (Ret (0, Some e), log (EvRead fd 2) w1).
Proof.
  intros Hw Hr. unfold ReadRegS16BE. index_write Hw. now value_read Hr.
Qed.

Lemma ReadRegS16BE_eof c :
  k_write K (trace w) fd [reg] = (c, None) ->
  k_read K (trace w1) fd 2 = ([], None) ->
  ReadRegS16BE K v reg w = (Ret (0, Some EOF), log (EvRead fd 2) w1).
Proof.
  intros Hw Hr. unfold ReadRegS16BE. index_write Hw. now value_read Hr.
Qed.

Lemma ReadRegS16BE_ok c data :
  k_write K (trace w) fd [reg] = (c, None) ->
  k_read K (trace w1) fd 2 = (data, None) ->
  data <> [] ->
  ReadRegS16BE K v reg w
  = (Ret (Spec.signed (byte_at data 0 * 256 + byte_at data 1), None),
     log (EvRead fd 2) w1).
Proof.
  intros Hw Hr Hne. unfold ReadRegS16BE. index_write Hw. value_read Hr.
  rewrite read_answer_ok by now right.
  rewrite fill_2. cbn [index lookup list_lookup ret].
  now rewrite be_i16 by apply byte_at_ok.
Qed.

Lemma ReadRegBytes_nack n c e :
  k_write K (trace w) fd [reg] = (c, Some e) ->
  ReadRegBytes K v reg n w = (Ret ([], 0, Some e), w1).
Proof. intros Hw. unfold ReadRegBytes. now index_write Hw. Qed.

Lemma ReadRegBytes_negative n c :
  n < 0 ->
  k_write K (trace w) fd [reg] = (c, None) ->
  ReadRegBytes K v reg n w = (Panic "makeslice: len out of range", w1).
Proof.
  intros Hn Hw. unfold ReadRegBytes. index_write Hw.
  unfold bind, make_bytes. destruct (Z.ltb_spec n 0); [reflexivity | lia].
Qed.

Lemma ReadRegBytes_read_error n c data e :
  0 <= n ->
  k_write K (trace w) fd [reg] = (c, None) ->
  k_read K (trace w1) fd (Z.to_nat n) = (data, Some e) ->
  ReadRegBytes K v reg n w
  = (Ret ([], 0, Some e), log (EvRead fd (Z.to_nat n)) w1).
Proof.
  intros Hn Hw Hr. unfold ReadRegBytes. index_write Hw.
  unfold bind, make_bytes. destruct (Z.ltb_spec n 0); [lia |].
  unfold ret at 1.
  erewrite ReadBytes_run by (rewrite length_replicate; exact Hr).
  now rewrite length_replicate.
Qed.

Lemma ReadRegBytes_eof n c :
  0 < n ->
  k_write K (trace w) fd [reg] = (c, None) ->
  k_read K (trace w1) fd (Z.to_nat n) = ([], None) ->
  ReadRegBytes K v reg n w
  = (Ret ([], 0, Some EOF), log (EvRead fd (Z.to_nat n)) w1).
Proof.
  intros Hn Hw Hr. unfold ReadRegBytes. index_write Hw.
  unfold bind, make_bytes. destruct (Z.ltb_spec n 0); [lia |].
  unfold ret at 1.
  erewrite ReadBytes_run by (rewrite length_replicate; exact Hr).
  rewrite read_answer_eof, length_replicate; [reflexivity |].
  destruct (Z.to_nat n) eqn:E; [lia | discriminate].
Qed.

Lemma ReadRegBytes_ok n c data :
  0 <= n ->
  k_write K (trace w) fd [reg] = (c, None) ->
  k_read K (trace w1) fd (Z.to_nat n) = (data, None) ->
  n = 0 \/ data <> [] ->
  ReadRegBytes K v reg n w
  = (Ret (fill (replicate (Z.to_nat n) 0) data,
          Z.of_nat (length (take (Z.to_nat n) data)),
          None),
     log (EvRead fd (Z.to_nat n)) w1).
Proof.
  intros Hn Hw Hr Hne. unfold ReadRegBytes. index_write Hw.
  unfold bind, make_bytes. destruct (Z.ltb_spec n 0); [lia |].
  unfold ret at 1.
  erewrite ReadBytes_run by (rewrite length_replicate; exact Hr).
  rewrite read_answer_ok, !length_replicate; [reflexivity |].
  destruct Hne as [-> | Hne]; [now left | now right].
Qed.

Lemma ReadRegU16LE_nack c e :
  k_write K (trace w) fd [reg] = (c, Some e) ->
  ReadRegU16LE K v reg w = (Ret (0, Some e), w1).
Proof.
  intros Hw. unfold ReadRegU16LE, bind.
  now erewrite ReadRegU16BE_nack by side.
Qed.

Lemma ReadRegU16LE_read_error c data e :
  k_write K (trace w) fd [reg] = (c, None) ->
  k_read K (trace w1) fd 2 = (data, Some e) ->
  ReadRegU16LE K v reg w = (Ret (0, Some e), log (EvRead fd 2) w1).
Proof.
  intros Hw Hr. unfold ReadRegU16LE, bind.
  now erewrite ReadRegU16BE_read_error by side.
Qed.

Lemma ReadRegU16LE_eof c :
  k_write K (trace w) fd [reg] = (c, None) ->
  k_read K (trace w1) fd 2 = ([], None) ->
  ReadRegU16LE K v reg w = (Ret (0, Some EOF), log (EvRead fd 2) w1).
Proof.
  intros Hw Hr. unfold ReadRegU16LE, bind.
  now erewrite ReadRegU16BE_eof by side.
Qed.

Lemma ReadRegU16LE_ok c data :
  k_write K (trace w) fd [reg] = (c, None) ->
  k_read K (trace w1) fd 2 = (data, None) ->
  data <> [] ->
  ReadRegU16LE K v reg w
  = (Ret (Spec.swap (byte_at data 0 * 256 + byte_at data 1), None),
     log (EvRead fd 2) w1).
Proof.
  intros Hw Hr Hne. unfold ReadRegU16LE, bind.
  erewrite ReadRegU16BE_ok by side. unfold ret.
  rewrite exchange_u16; [reflexivity |].
  pose proof (byte_at_ok data 0). pose proof (byte_at_ok data 1).
  words_lia.
Qed.

Lemma ReadRegS16LE_nack c e :
  k_write K (trace w) fd [reg] = (c, Some e) ->
  ReadRegS16LE K v reg w = (Ret (0, Some e), w1).
Proof.
  intros Hw. unfold ReadRegS16LE, bind.
  now erewrite ReadRegS16BE_nack by side.
Qed.

Lemma ReadRegS16LE_read_error c data e :
  k_write K (trace w) fd [reg] = (c, None) ->
  k_read K (trace w1) fd 2 = (data, Some e) ->
  ReadRegS16LE K v reg w = (Ret (0, Some e), log (EvRead fd 2) w1).
Proof.
  intros Hw Hr. unfold ReadRegS16LE, bind.
  now erewrite ReadRegS16BE_read_error by side.
Qed.

(** With the sign bit set in the first byte the result is not the exchange
    of the two bytes: its high byte is the second byte minus one. *)
Lemma ReadRegS16LE_eof c :
  k_write K (trace w) fd [reg] = (c, None) ->
  k_read K (trace w1) fd 2 = ([], None) ->
  ReadRegS16LE K v reg w = (Ret (0, Some EOF), log (EvRead fd 2) w1).
Proof.
  intros Hw Hr. unfold ReadRegS16LE, bind.
  now erewrite ReadRegS16BE_eof by side.
Qed.

Lemma ReadRegS16LE_ok c data :
  k_write K (trace w) fd [reg] = (c, None) ->
  k_read K (trace w1) fd 2 = (data, None) ->
  data <> [] ->
  ReadRegS16LE K v reg w
  = (Ret (Spec.signed
            (if byte_at data 0 <? 128
             then byte_at data 1 * 256 + byte_at data 0
             else (byte_at data 1 - 1) mod 256 * 256 + byte_at data 0),
          None),
     log (EvRead fd 2) w1).
Proof.
  intros Hw Hr Hne. unfold ReadRegS16LE, bind.
  erewrite ReadRegS16BE_ok by side. unfold ret.
  now rewrite exchange_i16 by apply byte_at_ok.
Qed.

Lemma WriteRegU8_run value :
  WriteRegU8 K v reg value w
  = (Ret (snd (k_write K (trace w) fd [reg; value])),
     log (EvWrite fd [reg; value]) w).
Proof.
  unfold WriteRegU8, bind. rewrite WriteBytes_run.
  now destruct (k_write K (trace w) fd [reg; value]) as [c [e|]].
Qed.

Lemma WriteRegU16BE_run value :
  let buf := [reg; (value / 256) mod 256; value mod 256] in
  WriteRegU16BE K v reg value w
  = (Ret (snd (k_write K (trace w) fd buf)), log (EvWrite fd buf) w).
Proof.
  unfold WriteRegU16BE, bind. rewrite WriteBytes_run. words.
  rewrite !Z.mod_mod by lia.
  now destruct (k_write K (trace w) fd _) as [c [e|]].
Qed.

Lemma WriteRegS16BE_run value :
  let buf := [reg; (Spec.pattern value / 256) mod 256; value mod 256] in
  WriteRegS16BE K v reg value w
  = (Ret (snd (k_write K (trace w) fd buf)), log (EvWrite fd buf) w).
Proof.
  unfold WriteRegS16BE, bind. rewrite WriteBytes_run. words.
  rewrite !Z.mod_mod by lia.
  now destruct (k_write K (trace w) fd _) as [c [e|]].
Qed.

End Runs.

(** ** Reading *)

(** C6.  For every unsigned 16-bit value [value], [ReadRegU16LE] on a device
    whose 2-byte response is [[hi value; lo value]], the big-endian encoding
    of [value], returns [lo value * 256 + hi value], which is
    [swap value]. *)
Theorem ReadRegU16LE_of_big_endian K v reg w value c :
  U16.ok value ->
  k_write K (trace w) (Fd (rc v)) [reg] = (c, None) ->
  k_read K (trace (log (EvWrite (Fd (rc v)) [reg]) w)) (Fd (rc v)) 2
  = ([Spec.hi value; Spec.lo value], None) ->
  fst (ReadRegU16LE K v reg w) = Ret (Spec.lo value * 256 + Spec.hi value, None)
  /\ Spec.lo value * 256 + Spec.hi value = Spec.swap value.
Proof.
  intros Hv Hw Hr. split; [| now rewrite swap_hi_lo].
  erewrite ReadRegU16LE_ok by side. cbn [fst].
  rewrite <- swap_hi_lo by trivial. do 3 f_equal.
  unfold byte_at. cbn [nth]. words_lia.
Qed.

Lemma ReadRegU16LE_of_big_endian_witness :
  fst (ReadRegU16LE (scripted None 0 None [0x12; 0x34] None) conn3 0 opened)
  = Ret (0x3412, None)
  /\ 0x3412 = Spec.swap 0x1234.
Proof.
  apply (ReadRegU16LE_of_big_endian
           (scripted None 0 None [0x12; 0x34] None) conn3 0 opened 0x1234 1).
  - unfold U16.ok. lia.
  - reflexivity.
  - reflexivity.
Defined.

(** C10, as the code has it.  The typed register reads ignore the count of
    the underlying read.  When the index write succeeds and the read
    delivers fewer bytes than asked but at least one, without an error,
    which for these reads means one byte [b0] out of two, the operation
    succeeds all the same after its one write and one read, and decodes the
    fresh zeroed buffer [b0, 0]: the byte that was not filled counts as 0.
    The little-endian reads exchange the bytes of that big-endian result
    the way the code does.  When the read delivers no byte at all it
    reports [io.EOF], and every typed read returns 0 with that error. *)
Theorem typed_reads_ignore_count K v reg w c :
  k_write K (trace w) (Fd (rc v)) [reg] = (c, None) ->
  (forall data,
      k_read K (trace (log (EvWrite (Fd (rc v)) [reg]) w)) (Fd (rc v)) 2
      = (data, None) ->
      (0 < length data < 2)%nat ->
      let b0 := byte_at data 0 in
      let w2 := log (EvRead (Fd (rc v)) 2) (log (EvWrite (Fd (rc v)) [reg]) w) in
      ReadRegU16BE K v reg w = (Ret (b0 * 256 + 0, None), w2)
      /\ ReadRegS16BE K v reg w = (Ret (Spec.signed (b0 * 256 + 0), None), w2)
      /\ ReadRegU16LE K v reg w = (Ret (0 * 256 + b0, None), w2)
      /\ ReadRegS16LE K v reg w
         = (Ret (I16.add (I16.shl (I16.and (Spec.signed (b0 * 256 + 0)) 0xFF) 8)
                         (I16.shr (Spec.signed (b0 * 256 + 0)) 8),
                 None),
            w2))
  /\
  (k_read K (trace (log (EvWrite (Fd (rc v)) [reg]) w)) (Fd (rc v)) 1
   = ([], None) ->
   ReadRegU8 K v reg w
   = (Ret (0, Some EOF),
      log (EvRead (Fd (rc v)) 1) (log (EvWrite (Fd (rc v)) [reg]) w)))
  /\
  (k_read K (trace (log (EvWrite (Fd (rc v)) [reg]) w)) (Fd (rc v)) 2
   = ([], None) ->
   let w2 := log (EvRead (Fd (rc v)) 2) (log (EvWrite (Fd (rc v)) [reg]) w) in
   ReadRegU16BE K v reg w = (Ret (0, Some EOF), w2)
   /\ ReadRegS16BE K v reg w = (Ret (0, Some EOF), w2)
   /\ ReadRegU16LE K v reg w = (Ret (0, Some EOF), w2)
   /\ ReadRegS16LE K v reg w = (Ret (0, Some EOF), w2)).
Proof.
  intros Hw. split; [| split].
  - intros data Hr Hlen b0 w2.
    assert (Hne : data <> []) by (intros ->; cbn [length] in Hlen; lia).
    assert (H1 : byte_at data 1 = 0) by (apply byte_at_unfilled; lia).
    pose proof (byte_at_ok data 0) as H0. fold b0 in H0.
    repeat split.
    + erewrite ReadRegU16BE_ok by side. now rewrite H1.
    + erewrite ReadRegS16BE_ok by side. now rewrite H1.
    + erewrite ReadRegU16LE_ok by side. rewrite H1. fold b0.
      rewrite swap_hi_lo by words_lia. do 3 f_equal. words_lia.
    + erewrite ReadRegS16LE_ok by side. rewrite H1. fold b0.
      rewrite <- (exchange_i16 b0 0) by (trivial; words_lia). reflexivity.
  - intros Hr. now erewrite ReadRegU8_eof by side.
  - intros Hr w2. repeat split.
    + now erewrite ReadRegU16BE_eof by side.
    + now erewrite ReadRegS16BE_eof by side.
    + now erewrite ReadRegU16LE_eof by side.
    + now erewrite ReadRegS16LE_eof by side.
Qed.

Lemma typed_reads_ignore_count_witness :
  ReadRegU16BE (one_short [0x12; 0x34]) conn3 0 opened
  = (Ret (0x1200, None), log (EvRead 3 2) (log (EvWrite 3 [0]) opened))
  /\ ReadRegS16BE (one_short [0x92; 0x34]) conn3 0 opened
     = (Ret (0x9200 - 0x10000, None),
        log (EvRead 3 2) (log (EvWrite 3 [0]) opened))
  /\ ReadRegU8 (one_short [0x12; 0x34]) conn3 0 opened
     = (Ret (0, Some EOF), log (EvRead 3 1) (log (EvWrite 3 [0]) opened)).
Proof.
  split; [| split].
  - apply (proj1 (typed_reads_ignore_count
                    (one_short [0x12; 0x34]) conn3 0 opened 1 eq_refl)
             [0x12] eq_refl).
    cbn [length]. lia.
  - apply (proj1 (typed_reads_ignore_count
                    (one_short [0x92; 0x34]) conn3 0 opened 1 eq_refl)
             [0x92] eq_refl).
    cbn [length]. lia.
  - apply (proj1 (proj2 (typed_reads_ignore_count
                           (one_short [0x12; 0x34]) conn3 0 opened 1 eq_refl))
             eq_refl).
Defined.

(** C10 as stated fails when the read delivers no byte: a device that
    delivers one byte fewer than asked, and reports no error, gives
    [ReadRegU8] nothing; the read then reports [io.EOF] and [ReadRegU8] does
    not return success. *)
Lemma ReadRegU8_of_nothing_fails :
  k_read (one_short [0x12; 0x34]) (trace (log (EvWrite 3 [0]) opened)) 3 1
  = ([], None)
  /\ ~ (exists x, fst (ReadRegU8 (one_short [0x12; 0x34]) conn3 0 opened)
                  = Ret (x, None)).
Proof.
  split; [reflexivity |]. intros [x H]. vm_compute in H. discriminate.
Qed.

(** ** Error propagation *)

(** C5.  For every register read that makes two transfers: when the index
    write fails, the operation returns that very error and the only call
    made is that write, so nothing is read; when the index write succeeds
    and the value read fails, the operation returns that very error after
    exactly one write and one read.  Nothing is retried. *)
Theorem reg_read_errors K v reg op w :
  (forall c e,
      k_write K (trace w) (Fd (rc v)) [reg] = (c, Some e) ->
      reg_read K v reg op w
      = (Ret (Some e), log (EvWrite (Fd (rc v)) [reg]) w))
  /\
  (forall c data e,
      0 <= wanted op ->
      k_write K (trace w) (Fd (rc v)) [reg] = (c, None) ->
      k_read K (trace (log (EvWrite (Fd (rc v)) [reg]) w)) (Fd (rc v))
             (Z.to_nat (wanted op)) = (data, Some e) ->
      reg_read K v reg op w
      = (Ret (Some e),
         log (EvRead (Fd (rc v)) (Z.to_nat (wanted op)))
             (log (EvWrite (Fd (rc v)) [reg]) w))).
Proof.
  split.
  - intros c e Hw. destruct op; unfold reg_read, bind.
    + now erewrite ReadRegBytes_nack by side.
    + now erewrite ReadRegU8_nack by side.
    + now erewrite ReadRegU16BE_nack by side.
    + now erewrite ReadRegU16LE_nack by side.
    + now erewrite ReadRegS16BE_nack by side.
    + now erewrite ReadRegS16LE_nack by side.
  - intros c data e Hn Hw Hr. destruct op; unfold reg_read, bind; cbn in Hr, Hn.
    + now erewrite ReadRegBytes_read_error by side.
    + now erewrite ReadRegU8_read_error by side.
    + now erewrite ReadRegU16BE_read_error by side.
    + now erewrite ReadRegU16LE_read_error by side.
    + now erewrite ReadRegS16BE_read_error by side.
    + now erewrite ReadRegS16LE_read_error by side.
Qed.

Lemma reg_read_errors_witness :
  reg_read (scripted None 0 (Some (PathError "write" EREMOTEIO)) [] None)
           conn3 0 RU16LE opened
  = (Ret (Some (PathError "write" EREMOTEIO)), log (EvWrite 3 [0]) opened)
  /\
  reg_read (scripted None 0 None [0x12] (Some (PathError "read" EIO)))
           conn3 0 (RBytes 4) opened
  = (Ret (Some (PathError "read" EIO)),
     log (EvRead 3 4) (log (EvWrite 3 [0]) opened)).
Proof.
  split.
  - apply (proj1 (reg_read_errors
                    (scripted None 0 (Some (PathError "write" EREMOTEIO)) [] None)
                    conn3 0 RU16LE opened) 0).
    reflexivity.
  - apply (proj2 (reg_read_errors
                    (scripted None 0 None [0x12] (Some (PathError "read" EIO)))
                    conn3 0 (RBytes 4) opened) 1 [0x12]).
    + cbn [wanted]. lia.
    + reflexivity.
    + reflexivity.
Defined.

(** ** The transfers of [ReadRegBytes] *)

(** C8, as the code has it.  For every register index [r] and byte count
    [n >= 0], [ReadRegBytes r n] first issues exactly one write of the single
    byte [r]; when that write succeeds it is followed by exactly one read
    asking for [n] bytes, and when it fails nothing follows.  No other call
    is made. *)
Theorem ReadRegBytes_transfers K v r n w :
  0 <= n ->
  trace (snd (ReadRegBytes K v r n w))
  = trace w
    ++ EvWrite (Fd (rc v)) [r]
    :: match k_write K (trace w) (Fd (rc v)) [r] with
       | (_, None) => [EvRead (Fd (rc v)) (Z.to_nat n)]
       | (_, Some _) => []
       end.
Proof.
  intros Hn.
  destruct (k_write K (trace w) (Fd (rc v)) [r]) as [c [e|]] eqn:Hw.
  - now erewrite ReadRegBytes_nack by side.
  - destruct (k_read K (trace (log (EvWrite (Fd (rc v)) [r]) w)) (Fd (rc v))
                (Z.to_nat n)) as [data [e|]] eqn:Hr.
    + erewrite ReadRegBytes_read_error by side.
      cbn [snd log trace]. now rewrite <- app_assoc.
    + destruct (decide (n = 0 \/ data <> [])) as [Hne|Hne].
      * erewrite ReadRegBytes_ok by side.
        cbn [snd log trace]. now rewrite <- app_assoc.
      * assert (Hpos : 0 < n) by (destruct (decide (n = 0)); [tauto | lia]).
        assert (Hd : data = []) by (destruct data; [trivial | exfalso; apply Hne; now right]).
        subst data. erewrite ReadRegBytes_eof by side.
        cbn [snd log trace]. now rewrite <- app_assoc.
Qed.

Lemma ReadRegBytes_transfers_witness :
  trace (snd (ReadRegBytes (scripted None 0 None [1; 2; 3] None)
                           conn3 0x10 3 opened))
  = trace opened ++ [EvWrite 3 [0x10]; EvRead 3 3].
Proof.
  apply (ReadRegBytes_transfers
           (scripted None 0 None [1; 2; 3] None) conn3 0x10 3 opened).
  lia.
Defined.

(** C8 as stated fails when the device does not acknowledge the index
    write: the call then makes one write and no read. *)
Lemma ReadRegBytes_nack_no_read :
  trace (snd (ReadRegBytes
                (scripted None 0 (Some (PathError "write" EREMOTEIO)) [] None)
                conn3 0x10 3 opened))
  <> trace opened ++ [EvWrite 3 [0x10]; EvRead 3 3].
Proof. vm_compute. discriminate. Qed.

(** ** Round trip of a signed word *)

Lemma last_payload_after_index t fd r b p r' :
  last_payload fd (t ++ [EvWrite fd (r :: b :: p)] ++ [EvWrite fd [r']])
  = b :: p.
Proof.
  unfold last_payload. rewrite !foldl_app. cbn [foldl].
  now rewrite decide_True.
Qed.

(** C7.  For every signed 16-bit [value] and every register index,
    [WriteRegS16BE] followed by [ReadRegS16BE] on a loopback device, which
    answers the read with the two payload bytes just written, returns
    exactly [value], sign included. *)
Theorem S16BE_loopback_roundtrip v reg value w :
  I16.ok value ->
  fst (roundtrip_S16BE loopback v reg value w) = Ret (value, None).
Proof.
  intros Hv. unfold roundtrip_S16BE, bind.
  rewrite WriteRegS16BE_run. cbn [loopback k_write snd].
  erewrite (ReadRegS16BE_ok loopback) with (c := 1); [| reflexivity | |].
  2: { cbn [loopback k_read log trace]. rewrite <- app_assoc.
       rewrite last_payload_after_index. reflexivity. }
  2: { cbn [take]. discriminate. }
  cbn [fst take]. unfold byte_at. cbn [nth]. do 2 f_equal. words_lia.
Qed.

Lemma S16BE_loopback_roundtrip_witness :
  fst (roundtrip_S16BE loopback conn3 0x10 (-2) opened) = Ret (-2, None).
Proof.
  apply (S16BE_loopback_roundtrip conn3 0x10 (-2) opened).
  unfold I16.ok. lia.
Defined.

(** ** Writing little-endian words *)

(** What [WriteRegU16LE] does in general: it writes big-endian a word made
    of the low byte of the value and of that byte negated. *)
Lemma WriteRegU16LE_run K v reg value w :
  U16.ok value ->
  WriteRegU16LE K v reg value w
  = WriteRegU16BE K v reg (Spec.lo value * 256 + (- value) mod 256) w.
Proof. intros Hv. unfold WriteRegU16LE. now rewrite u16le_word. Qed.

(** C1, on the code.  [WriteRegU16LE 0x10 0x1234] transfers the bytes
    [0x10, 0x34, 0xCC], whereas [WriteRegU16BE 0x10 (swap 0x1234)] transfers
    [0x10, 0x34, 0x12]: the word handed to the big-endian writer is 0x34CC,
    not [swap 0x1234 = 0x3412]. *)
Theorem WriteRegU16LE_not_swapped :
  WriteRegU16LE (scripted None 0 None [] None) conn3 0x10 0x1234 opened
  = (Ret None, log (EvWrite 3 [0x10; 0x34; 0xCC]) opened)
  /\ WriteRegU16BE (scripted None 0 None [] None) conn3 0x10
                   (Spec.swap 0x1234) opened
     = (Ret None, log (EvWrite 3 [0x10; 0x34; 0x12]) opened)
  /\ U16.add (U16.shr (U16.mul 0x1234 0xFF00) 8) (U16.shl 0x1234 8) = 0x34CC
  /\ Spec.swap 0x1234 = 0x3412.
Proof. repeat split; vm_compute; reflexivity. Qed.

(** What [WriteRegS16LE] does in general: after the register index it sends
    the low byte of the value and then that byte negated, where the high
    byte of the value belongs. *)
Lemma WriteRegS16LE_run K v reg value w :
  I16.ok value ->
  let buf := [reg; value mod 256; (- value) mod 256] in
  WriteRegS16LE K v reg value w
  = (Ret (snd (k_write K (trace w) (Fd (rc v)) buf)),
     log (EvWrite (Fd (rc v)) buf) w).
Proof.
  intros Hv buf. unfold WriteRegS16LE. rewrite WriteRegS16BE_run.
  set (x := I16.add _ _).
  assert (H1 : (Spec.pattern x / 256) mod 256 = value mod 256)
    by (subst x; words_lia).
  assert (H2 : x mod 256 = (- value) mod 256) by (subst x; words_lia).
  now rewrite H1, H2.
Qed.

(** C2, on the code.  [WriteRegS16LE 0x10 (-1)] issues a single write of
    the bytes [0x10, 0xFF, 0x01]: the second payload byte is 0x01, not the
    high byte 0xFF of -1. *)
Theorem WriteRegS16LE_minus_one :
  WriteRegS16LE (scripted None 0 None [] None) conn3 0x10 (-1) opened
  = (Ret None, log (EvWrite 3 [0x10; 0xFF; 0x01]) opened).
Proof. vm_compute. reflexivity. Qed.

(** ** Reading a signed little-endian word *)

(** C3, on the code.  When the device answers [0x80, 0x00], whose first byte
    has its high bit set, [ReadRegS16LE] returns -128 (pattern 0xFF80),
    whereas the word [(b1 << 8) | b0] is 0x0080 = 128. *)
Theorem ReadRegS16LE_sign_extends :
  fst (ReadRegS16LE (scripted None 0 None [0x80; 0x00] None) conn3 0x10 opened)
  = Ret (-128, None)
  /\ Spec.signed (Z.lor (Z.shiftl 0x00 8) 0x80) = 128.
Proof. split; vm_compute; reflexivity. Qed.

(** ** Opening a connection *)

Lemma NewI2C_open_failure K addr bus w e :
  k_open K (trace w) (dev_path bus) = Some e ->
  NewI2C K addr bus w
  = (Ret (None, Some e),
     {| trace := trace w ++ [EvOpen (dev_path bus) O_RDWR perm_0600];
        files := files w;
        next_fd := next_fd w |}).
Proof. intros Ho. unfold NewI2C, bind, OpenFile. now rewrite Ho. Qed.

(** When the bind request is refused the descriptor just opened stays in
    the table: no [Close] is issued on it. *)
Lemma NewI2C_bind_failure K addr bus w :
  let t := trace w ++ [EvOpen (dev_path bus) O_RDWR perm_0600] in
  let errno := k_ioctl K t (next_fd w) i2cSlave addr in
  k_open K (trace w) (dev_path bus) = None ->
  errno <> 0 ->
  NewI2C K addr bus w
  = (Ret (None, Some (Errno errno)),
     {| trace := t ++ [EvIoctl (next_fd w) i2cSlave addr];
        files := <[next_fd w := {| f_path := dev_path bus; f_slave := None |}]>
                   (files w);
        next_fd := next_fd w + 1 |}).
Proof.
  intros t errno Ho He.
  unfold NewI2C, bind, OpenFile, ioctl, Syscall6_IOCTL, bind, ret.
  rewrite Ho. cbn [trace files next_fd Fd]. fold t. fold errno.
  apply Z.eqb_neq in He. now rewrite He.
Qed.

Lemma NewI2C_success K addr bus w :
  let t := trace w ++ [EvOpen (dev_path bus) O_RDWR perm_0600] in
  k_open K (trace w) (dev_path bus) = None ->
  k_ioctl K t (next_fd w) i2cSlave addr = 0 ->
  NewI2C K addr bus w
  = (Ret (Some {| rc := {| Fd := next_fd w |} |}, None),
     {| trace := t ++ [EvIoctl (next_fd w) i2cSlave addr];
        files := <[next_fd w := {| f_path := dev_path bus;
                                   f_slave := Some addr |}]> (files w);
        next_fd := next_fd w + 1 |}).
Proof.
  intros t Ho He.
  unfold NewI2C, bind, OpenFile, ioctl, Syscall6_IOCTL, bind, ret.
  rewrite Ho. cbn [trace files next_fd Fd]. fold t. rewrite He.
  cbn [Z.eqb negb andb]. rewrite Z.eqb_refl.
  do 2 f_equal. apply map_eq. intros i.
  rewrite lookup_alter. case_decide as Hi.
  - subst i. now rewrite !lookup_insert_eq.
  - now rewrite !lookup_insert_ne.
Qed.

(** C4, on the code.  Bus 1 opens and the bind request for 0x48 is refused
    with EBUSY: [NewI2C] returns the bind error while descriptor 3, opened
    by the call, is still in the table, and no close was issued. *)
Theorem NewI2C_bind_failure_leaks :
  NewI2C (scripted None EBUSY None [] None) 0x48 1 boot
  = (Ret (None, Some (Errno EBUSY)),
     {| trace := [EvOpen (dev_path 1) O_RDWR perm_0600; EvIoctl 3 i2cSlave 0x48];
        files := {[ 3 := {| f_path := dev_path 1; f_slave := None |} ]};
        next_fd := 4 |}).
Proof. vm_compute. reflexivity. Qed.

(** ** The binding of a connection *)

Lemma evolves_refl fd w : evolves fd w w.
Proof.
  exists []. rewrite app_nil_r. repeat split; trivial.
  intros H. now apply elem_of_nil in H.
Qed.

Lemma evolves_trans fd w1 w2 w3 :
  evolves fd w1 w2 -> evolves fd w2 w3 -> evolves fd w1 w3.
Proof.
  intros (e1 & Ht1 & Ho1 & Hk1 & Hc1) (e2 & Ht2 & Ho2 & Hk2 & Hc2).
  exists (e1 ++ e2). repeat split.
  - now rewrite Ht2, Ht1, app_assoc.
  - now apply Forall_app.
  - intros Hn. rewrite elem_of_app in Hn.
    rewrite Hk2, Hk1; tauto.
  - intros Hin. apply elem_of_app in Hin.
    destruct (decide (EvClose fd ∈ e2)) as [H2|H2]; [now apply Hc2 |].
    rewrite Hk2 by trivial. apply Hc1. tauto.
Qed.

Lemma evolves_log fd w e :
  own_traffic fd e -> e <> EvClose fd -> evolves fd w (log e w).
Proof.
  intros Ho Hne. exists [e]. repeat split; trivial.
  - now constructor.
  - intros Hin. apply list_elem_of_singleton in Hin. congruence.
Qed.

Lemma preserves_ret {A} fd (a : A) : preserves fd (ret a).
Proof. intros w. apply evolves_refl. Qed.

Lemma preserves_panic {A} fd msg : preserves fd (panic (A := A) msg).
Proof. intros w. apply evolves_refl. Qed.

Lemma preserves_bind {A B} fd (m : M A) (k : A -> M B) :
  preserves fd m -> (forall a, preserves fd (k a)) -> preserves fd (bind m k).
Proof.
  intros Hm Hk w. unfold bind. specialize (Hm w).
  destruct (m w) as [[a|msg] w']; cbn [snd] in *; trivial.
  eapply evolves_trans; [exact Hm | apply Hk].
Qed.

Lemma preserves_File_Write K f buf : preserves (Fd f) (File_Write K f buf).
Proof. intros w. now apply evolves_log. Qed.

Lemma preserves_File_Read K f buf : preserves (Fd f) (File_Read K f buf).
Proof.
  intros w. unfold File_Read.
  destruct (k_read K (trace w) (Fd f) (length buf)) as [data err].
  now apply evolves_log.
Qed.

Lemma preserves_File_Close K f : preserves (Fd f) (File_Close K f).
Proof.
  intros w. exists [EvClose (Fd f)]. repeat split.
  - now constructor.
  - intros Hn. exfalso. apply Hn. now apply list_elem_of_singleton.
  - intros _. apply lookup_delete_eq.
Qed.

(** Decomposes an operation into its binds and primitive calls. *)
Ltac traffic :=
  repeat first
    [ apply preserves_ret
    | apply preserves_panic
    | apply preserves_File_Write
    | apply preserves_File_Read
    | apply preserves_File_Close
    | apply preserves_bind; [| intros ?]
    | match goal with
      | |- preserves _ (match ?x with _ => _ end) => destruct x
      end ].

Lemma preserves_perform K v c : preserves (Fd (rc v)) (perform K v c).
Proof.
  destruct c; unfold perform, discard;
    unfold ReadRegU16LE, ReadRegS16LE, WriteRegU16LE, WriteRegS16LE;
    unfold ReadRegBytes, ReadRegU8, WriteRegU8, ReadRegU16BE, ReadRegS16BE,
      WriteRegU16BE, WriteRegS16BE, WriteBytes, ReadBytes, Close, write, read,
      make_bytes, index;
    traffic.
Qed.

Lemma preserves_session K v cs : preserves (Fd (rc v)) (session K v cs).
Proof.
  induction cs as [|c cs IH]; cbn [session].
  - apply preserves_ret.
  - apply preserves_bind; [apply preserves_perform | intros _; exact IH].
Qed.

Lemma NewI2C_binds K addr bus w v w1 :
  NewI2C K addr bus w = (Ret (Some v, None), w1) ->
  files w1 !! Fd (rc v)
  = Some {| f_path := dev_path bus; f_slave := Some addr |}.
Proof.
  destruct (k_open K (trace w) (dev_path bus)) as [e|] eqn:Ho.
  { rewrite (NewI2C_open_failure _ _ _ _ e) by trivial. discriminate. }
  destruct (Z.eq_dec
              (k_ioctl K (trace w ++ [EvOpen (dev_path bus) O_RDWR perm_0600])
                       (next_fd w) i2cSlave addr) 0) as [He|He].
  - rewrite NewI2C_success by trivial. intros [= <- <-].
    cbn [files rc Fd]. apply lookup_insert_eq.
  - rewrite NewI2C_bind_failure by trivial. discriminate.
Qed.

(** C9.  After [NewI2C addr bus] has returned a connection, whatever
    sequence of operations follows ([WriteBytes], [ReadBytes], the register
    operations, [Close]), the calls it makes to the operating system are
    only transfers on, and the closing of, the connection's own descriptor:
    no file is opened and no bind request is issued again.  The descriptor
    stays bound to the device path of [bus] and to [addr] until [Close]
    releases it, and is never bound to anything else. *)
Theorem connection_stays_bound K addr bus w v w1 cs :
  NewI2C K addr bus w = (Ret (Some v, None), w1) ->
  exists evs,
    trace (snd (session K v cs w1)) = trace w1 ++ evs
    /\ Forall (own_traffic (Fd (rc v))) evs
    /\ (EvClose (Fd (rc v)) ∉ evs ->
        files (snd (session K v cs w1)) !! Fd (rc v)
        = Some {| f_path := dev_path bus; f_slave := Some addr |})
    /\ (EvClose (Fd (rc v)) ∈ evs ->
        files (snd (session K v cs w1)) !! Fd (rc v) = None).
Proof.
  intros Hnew. apply NewI2C_binds in Hnew.
  destruct (preserves_session K v cs w1) as (evs & Ht & Ho & Hk & Hc).
  exists evs. repeat split; trivial.
  intros Hn. now rewrite Hk.
Qed.

Lemma connection_stays_bound_witness :
  exists evs,
    trace (snd (session loopback conn3
                  [CWriteRegU8 0x01 0x60; CReadRegU16BE 0x00;
                   CWriteRegS16LE 0x10 (-1); CReadRegBytes 0x00 4]
                  opened))
    = trace opened ++ evs
    /\ Forall (own_traffic 3) evs
    /\ (EvClose 3 ∉ evs ->
        files (snd (session loopback conn3
                      [CWriteRegU8 0x01 0x60; CReadRegU16BE 0x00;
                       CWriteRegS16LE 0x10 (-1); CReadRegBytes 0x00 4]
                      opened)) !! 3
        = Some {| f_path := dev_path 1; f_slave := Some 0x48 |})
    /\ (EvClose 3 ∈ evs ->
        files (snd (session loopback conn3
                      [CWriteRegU8 0x01 0x60; CReadRegU16BE 0x00;
                       CWriteRegS16LE 0x10 (-1); CReadRegBytes 0x00 4]
                      opened)) !! 3 = None).
Proof.
  apply (connection_stays_bound loopback 0x48 1 boot conn3 opened).
  vm_compute. reflexivity.
Defined.

(** * Further properties of the package *)

(** ** Opening and closing *)

Lemma to_int_proper z :
  Z.to_int z <> Decimal.Pos Decimal.Nil /\ Z.to_int z <> Decimal.Neg Decimal.Nil.
Proof.
  destruct z as [|p|p]; cbn [Z.to_int]; split; try discriminate;
    intros [= H]; now apply (Unsigned.to_uint_nonnil p).
Qed.

Lemma dev_path_inj bus1 bus2 : dev_path bus1 = dev_path bus2 -> bus1 = bus2.
Proof.
  unfold dev_path. intros H. apply (inj (String.append _)) in H.
  apply DecimalZ.to_int_inj.
  assert (Hs : NilZero.int_of_string (NilZero.string_of_int (Z.to_int bus1))
               = NilZero.int_of_string (NilZero.string_of_int (Z.to_int bus2)))
    by now rewrite H.
  rewrite !NilZero.isi in Hs by apply to_int_proper. congruence.
Qed.

(** X4.  Different bus numbers, negative ones included, give different
    device paths. *)
Theorem dev_path_distinct bus1 bus2 :
  bus1 <> bus2 -> dev_path bus1 <> dev_path bus2.
Proof. intros Hne Heq. apply Hne. now apply dev_path_inj. Qed.

Lemma dev_path_distinct_witness : dev_path 1 <> dev_path 10.
Proof. apply (dev_path_distinct 1 10). lia. Defined.

(** X1.  When the device file cannot be opened, [NewI2C] returns that error
    and no connection; the open is the only call made (no bind request
    follows), and the descriptor table is untouched. *)
Theorem NewI2C_open_error_no_bind K addr bus w e :
  k_open K (trace w) (dev_path bus) = Some e ->
  fst (NewI2C K addr bus w) = Ret (None, Some e)
  /\ trace (snd (NewI2C K addr bus w))
     = trace w ++ [EvOpen (dev_path bus) O_RDWR perm_0600]
  /\ files (snd (NewI2C K addr bus w)) = files w
  /\ next_fd (snd (NewI2C K addr bus w)) = next_fd w.
Proof.
  intros Ho. rewrite (NewI2C_open_failure _ _ _ _ e) by trivial.
  repeat split.
Qed.

Lemma NewI2C_open_error_no_bind_witness :
  fst (NewI2C (scripted (Some (PathError "open" 2)) 0 None [] None) 0x48 999 boot)
  = Ret (None, Some (PathError "open" 2))
  /\ trace (snd (NewI2C (scripted (Some (PathError "open" 2)) 0 None [] None)
                        0x48 999 boot))
     = trace boot ++ [EvOpen (dev_path 999) O_RDWR perm_0600]
  /\ files (snd (NewI2C (scripted (Some (PathError "open" 2)) 0 None [] None)
                        0x48 999 boot)) = files boot
  /\ next_fd (snd (NewI2C (scripted (Some (PathError "open" 2)) 0 None [] None)
                          0x48 999 boot)) = next_fd boot.
Proof.
  apply (NewI2C_open_error_no_bind
           (scripted (Some (PathError "open" 2)) 0 None [] None) 0x48 999 boot).
  reflexivity.
Defined.

(** X2.  When the device file opens and the bind request is accepted,
    [NewI2C] returns a connection on the new descriptor and no error.  It
    made exactly two calls: the open of the bus's device path for reading
    and writing with mode 0600, then the request 0x0703 with the address on
    that descriptor, which the table now shows bound to that address. *)
Theorem NewI2C_success_calls K addr bus w :
  k_open K (trace w) (dev_path bus) = None ->
  k_ioctl K (trace w ++ [EvOpen (dev_path bus) 2 384]) (next_fd w) 0x0703 addr
  = 0 ->
  fst (NewI2C K addr bus w) = Ret (Some {| rc := {| Fd := next_fd w |} |}, None)
  /\ trace (snd (NewI2C K addr bus w))
     = trace w ++ [EvOpen (dev_path bus) 2 384; EvIoctl (next_fd w) 0x0703 addr]
  /\ files (snd (NewI2C K addr bus w)) !! next_fd w
     = Some {| f_path := dev_path bus; f_slave := Some addr |}.
Proof.
  intros Ho He. rewrite NewI2C_success by trivial. cbn [fst snd trace files].
  repeat split.
  - now rewrite <- app_assoc.
  - apply lookup_insert_eq.
Qed.

Lemma NewI2C_success_calls_witness :
  fst (NewI2C loopback 0x48 1 boot) = Ret (Some conn3, None)
  /\ trace (snd (NewI2C loopback 0x48 1 boot))
     = trace boot ++ [EvOpen (dev_path 1) 2 384; EvIoctl 3 0x0703 0x48]
  /\ files (snd (NewI2C loopback 0x48 1 boot)) !! 3
     = Some {| f_path := dev_path 1; f_slave := Some 0x48 |}.
Proof.
  apply (NewI2C_success_calls loopback 0x48 1 boot); reflexivity.
Defined.

(** X3.  [NewI2C] never panics and returns exactly one of a connection and
    an error.  The calls it makes are one open, followed by at most one bind
    request on the descriptor just opened; it never reads, writes or
    closes. *)
Theorem NewI2C_outcomes K addr bus w :
  exists r w' evs,
    NewI2C K addr bus w = (Ret r, w')
    /\ ((exists v, r = (Some v, None)) \/ (exists e, r = (None, Some e)))
    /\ trace w' = trace w ++ EvOpen (dev_path bus) O_RDWR perm_0600 :: evs
    /\ (evs = [] \/ evs = [EvIoctl (next_fd w) i2cSlave addr]).
Proof.
  destruct (k_open K (trace w) (dev_path bus)) as [e|] eqn:Ho.
  { rewrite (NewI2C_open_failure _ _ _ _ e) by trivial.
    eexists _, _, []. cbn [trace]. repeat split; eauto. }
  destruct (Z.eq_dec
              (k_ioctl K (trace w ++ [EvOpen (dev_path bus) O_RDWR perm_0600])
                       (next_fd w) i2cSlave addr) 0) as [He|He].
  - rewrite NewI2C_success by trivial.
    eexists _, _, [_]. cbn [trace]. rewrite <- app_assoc.
    repeat split; eauto.
  - rewrite NewI2C_bind_failure by trivial.
    eexists _, _, [_]. cbn [trace]. rewrite <- app_assoc.
    repeat split; eauto.
Qed.

(** X5.  Opening a connection and closing it releases the descriptor:
    [Close] returns what the operating system answers to the close, the
    calls made are the open, the bind request and the close, and the
    descriptor table is again what it was before the open (the new
    descriptor being one the table did not hold). *)
Theorem NewI2C_then_Close K addr bus w v w1 :
  files w !! next_fd w = None ->
  NewI2C K addr bus w = (Ret (Some v, None), w1) ->
  fst (Close K v w1) = Ret (k_close K (trace w1) (Fd (rc v)))
  /\ trace (snd (Close K v w1))
     = trace w ++ [EvOpen (dev_path bus) O_RDWR perm_0600;
                   EvIoctl (Fd (rc v)) i2cSlave addr;
                   EvClose (Fd (rc v))]
  /\ files (snd (Close K v w1)) = files w.
Proof.
  intros Hfresh.
  destruct (k_open K (trace w) (dev_path bus)) as [e|] eqn:Ho.
  { rewrite (NewI2C_open_failure _ _ _ _ e) by trivial. discriminate. }
  destruct (Z.eq_dec
              (k_ioctl K (trace w ++ [EvOpen (dev_path bus) O_RDWR perm_0600])
                       (next_fd w) i2cSlave addr) 0) as [He|He].
  - rewrite NewI2C_success by trivial. intros [= <- <-].
    unfold Close, File_Close. cbn [fst snd trace files rc Fd].
    repeat split.
    + now rewrite <- !app_assoc.
    + rewrite delete_insert_eq. now apply delete_id.
  - rewrite NewI2C_bind_failure by trivial. discriminate.
Qed.

Lemma NewI2C_then_Close_witness :
  fst (Close loopback conn3 opened) = Ret None
  /\ trace (snd (Close loopback conn3 opened))
     = trace boot ++ [EvOpen (dev_path 1) O_RDWR perm_0600;
                      EvIoctl 3 i2cSlave 0x48;
                      EvClose 3]
  /\ files (snd (Close loopback conn3 opened)) = files boot.
Proof.
  apply (NewI2C_then_Close loopback 0x48 1 boot conn3 opened); reflexivity.
Defined.

(** X6.  A connection whose descriptor has been released stays released:
    no sequence of operations on it brings the descriptor back into the
    table. *)
Theorem closed_stays_closed K v cs w :
  files w !! Fd (rc v) = None ->
  files (snd (session K v cs w)) !! Fd (rc v) = None.
Proof.
  intros Hclosed.
  destruct (preserves_session K v cs w) as (evs & _ & _ & Hk & Hc).
  destruct (decide (EvClose (Fd (rc v)) ∈ evs)) as [Hin|Hin].
  - now apply Hc.
  - now rewrite Hk.
Qed.

Lemma closed_stays_closed_witness :
  files (snd (session loopback conn3
                [CWriteRegU8 0x01 0x60; CReadRegU16BE 0x00; CClose]
                (snd (Close loopback conn3 opened)))) !! 3 = None.
Proof.
  apply (closed_stays_closed loopback conn3
           [CWriteRegU8 0x01 0x60; CReadRegU16BE 0x00; CClose]
           (snd (Close loopback conn3 opened))).
  reflexivity.
Defined.

(** ** The register writers *)

(** X7.  Every register writer makes a single combined transfer and never
    reads: one write of the register index followed by the value byte
    ([WriteRegU8]) or by two payload bytes, each within a byte whatever the
    value (the 16-bit writers); it returns the error of that write, or none
    when the write succeeds. *)
Theorem register_writers_single_transfer K v reg value w :
  WriteRegU8 K v reg value w
  = (Ret (snd (k_write K (trace w) (Fd (rc v)) [reg; value])),
     log (EvWrite (Fd (rc v)) [reg; value]) w)
  /\ (exists b0 b1,
         U8.ok b0 /\ U8.ok b1
         /\ WriteRegU16BE K v reg value w
            = (Ret (snd (k_write K (trace w) (Fd (rc v)) [reg; b0; b1])),
               log (EvWrite (Fd (rc v)) [reg; b0; b1]) w))
  /\ (exists b0 b1,
         U8.ok b0 /\ U8.ok b1
         /\ WriteRegU16LE K v reg value w
            = (Ret (snd (k_write K (trace w) (Fd (rc v)) [reg; b0; b1])),
               log (EvWrite (Fd (rc v)) [reg; b0; b1]) w))
  /\ (exists b0 b1,
         U8.ok b0 /\ U8.ok b1
         /\ WriteRegS16BE K v reg value w
            = (Ret (snd (k_write K (trace w) (Fd (rc v)) [reg; b0; b1])),
               log (EvWrite (Fd (rc v)) [reg; b0; b1]) w))
  /\ (exists b0 b1,
         U8.ok b0 /\ U8.ok b1
         /\ WriteRegS16LE K v reg value w
            = (Ret (snd (k_write K (trace w) (Fd (rc v)) [reg; b0; b1])),
               log (EvWrite (Fd (rc v)) [reg; b0; b1]) w)).
Proof.
  split; [apply WriteRegU8_run |].
  repeat split; unfold WriteRegU16LE, WriteRegS16LE;
    rewrite ?WriteRegU16BE_run, ?WriteRegS16BE_run;
    eexists _, _; (split; [| split; [| reflexivity]]); words_lia.
Qed.

(** X8.  [WriteRegU16BE] sends a 16-bit value big-endian: the transfer is
    the register index, the high byte, the low byte, and the two payload
    bytes make up the value. *)
Theorem WriteRegU16BE_big_endian K v reg value w :
  U16.ok value ->
  trace (snd (WriteRegU16BE K v reg value w))
  = trace w ++ [EvWrite (Fd (rc v)) [reg; Spec.hi value; Spec.lo value]]
  /\ Spec.hi value * 256 + Spec.lo value = value
  /\ U8.ok (Spec.hi value) /\ U8.ok (Spec.lo value).
Proof.
  intros Hv. rewrite WriteRegU16BE_run. cbn [snd log trace].
  assert (H1 : (value / 256) mod 256 = Spec.hi value) by words_lia.
  assert (H2 : value mod 256 = Spec.lo value) by reflexivity.
  rewrite H1, H2. repeat split; words_lia.
Qed.

Lemma WriteRegU16BE_big_endian_witness :
  trace (snd (WriteRegU16BE loopback conn3 0x10 0x1234 opened))
  = trace opened ++ [EvWrite 3 [0x10; Spec.hi 0x1234; Spec.lo 0x1234]]
  /\ Spec.hi 0x1234 * 256 + Spec.lo 0x1234 = 0x1234
  /\ U8.ok (Spec.hi 0x1234) /\ U8.ok (Spec.lo 0x1234).
Proof.
  apply (WriteRegU16BE_big_endian loopback conn3 0x10 0x1234 opened).
  unfold U16.ok. lia.
Defined.

(** X11.  The signed writers send the two's complement pattern: on every
    value each one does exactly what its unsigned counterpart does on the
    16-bit pattern of the value. *)
Theorem signed_writers_send_pattern K v reg value w :
  WriteRegS16BE K v reg value w = WriteRegU16BE K v reg (Spec.pattern value) w
  /\ WriteRegS16LE K v reg value w
     = WriteRegU16LE K v reg (Spec.pattern value) w.
Proof.
  split.
  - rewrite WriteRegS16BE_run, WriteRegU16BE_run.
    assert (H : Spec.pattern value mod 256 = value mod 256) by words_lia.
    now rewrite H.
  - unfold WriteRegS16LE, WriteRegU16LE.
    rewrite WriteRegS16BE_run, WriteRegU16BE_run.
    set (x := I16.add _ _). set (y := U16.add _ _).
    assert (H1 : (Spec.pattern x / 256) mod 256 = (y / 256) mod 256)
      by (subst x y; words_lia).
    assert (H2 : x mod 256 = y mod 256) by (subst x y; words_lia).
    now rewrite H1, H2.
Qed.

(** X15.  [WriteRegU16LE] sends the register index, the low byte of the
    value, and then the negated value modulo 256.  That is the transfer of
    the big-endian writer on the swapped value exactly when the two bytes of
    the value add up to 0 modulo 256. *)
Theorem WriteRegU16LE_transfer K v reg value w :
  U16.ok value ->
  trace (snd (WriteRegU16LE K v reg value w))
  = trace w ++ [EvWrite (Fd (rc v)) [reg; Spec.lo value; (- value) mod 256]]
  /\ (trace (snd (WriteRegU16LE K v reg value w))
      = trace (snd (WriteRegU16BE K v reg (Spec.swap value) w))
      <-> (Spec.hi value + Spec.lo value) mod 256 = 0).
Proof.
  intros Hv. rewrite WriteRegU16LE_run by trivial.
  rewrite !WriteRegU16BE_run. cbn [snd log trace].
  rewrite (swap_hi_lo value) by trivial.
  assert (H1 : ((Spec.lo value * 256 + (- value) mod 256) / 256) mod 256
               = Spec.lo value) by words_lia.
  assert (H2 : (Spec.lo value * 256 + (- value) mod 256) mod 256
               = (- value) mod 256) by words_lia.
  assert (H3 : ((Spec.lo value * 256 + Spec.hi value) / 256) mod 256
               = Spec.lo value) by words_lia.
  assert (H4 : (Spec.lo value * 256 + Spec.hi value) mod 256 = Spec.hi value)
    by words_lia.
  rewrite H1, H2, H3, H4. split; [reflexivity |]. split.
  - intros Heq. apply app_inv_head in Heq. injection Heq as Heq.
    revert Heq. words_lia.
  - intros Hsum.
    assert (H5 : (- value) mod 256 = Spec.hi value)
      by (revert Hsum; words_lia).
    now rewrite H5.
Qed.

Lemma WriteRegU16LE_transfer_witness :
  trace (snd (WriteRegU16LE loopback conn3 0x10 0x01FF opened))
  = trace opened ++ [EvWrite 3 [0x10; Spec.lo 0x01FF; (- 0x01FF) mod 256]]
  /\ (trace (snd (WriteRegU16LE loopback conn3 0x10 0x01FF opened))
      = trace (snd (WriteRegU16BE loopback conn3 0x10 (Spec.swap 0x01FF) opened))
      <-> (Spec.hi 0x01FF + Spec.lo 0x01FF) mod 256 = 0).
Proof.
  apply (WriteRegU16LE_transfer loopback conn3 0x10 0x01FF opened).
  unfold U16.ok. lia.
Defined.

(** ** The typed reads *)

Lemma byte_at_head b rest : U8.ok b -> byte_at (b :: rest) 0 = b.
Proof. intros Hb. unfold byte_at. cbn [nth]. words_lia. Qed.

Lemma byte_at_second a b rest : U8.ok b -> byte_at (a :: b :: rest) 1 = b.
Proof. intros Hb. unfold byte_at. cbn [nth]. words_lia. Qed.

(** X19.  With the index write acknowledged and no read error, the typed
    reads decode the first bytes delivered and ignore any further ones:
    [ReadRegU8] returns the first byte, [ReadRegU16BE] returns
    [b0 * 256 + b1], and [ReadRegS16BE] returns the same word read as two's
    complement, negative exactly when the first byte is 0x80 or more. *)
Theorem typed_reads_decode K v reg w c b0 b1 :
  U8.ok b0 -> U8.ok b1 ->
  k_write K (trace w) (Fd (rc v)) [reg] = (c, None) ->
  (forall rest,
      k_read K (trace (log (EvWrite (Fd (rc v)) [reg]) w)) (Fd (rc v)) 1
      = (b0 :: rest, None) ->
      fst (ReadRegU8 K v reg w) = Ret (b0, None))
  /\
  (forall rest,
      k_read K (trace (log (EvWrite (Fd (rc v)) [reg]) w)) (Fd (rc v)) 2
      = (b0 :: b1 :: rest, None) ->
   fst (ReadRegU16BE K v reg w) = Ret (b0 * 256 + b1, None)
   /\ fst (ReadRegS16BE K v reg w)
      = Ret (if b0 <? 128 then b0 * 256 + b1 else b0 * 256 + b1 - 65536, None)).
Proof.
  intros H0 H1 Hw. split.
  - intros rest Hr. erewrite ReadRegU8_ok by side.
    now rewrite byte_at_head.
  - intros rest Hr. split.
    + erewrite ReadRegU16BE_ok by side.
      now rewrite byte_at_head, byte_at_second.
    + erewrite ReadRegS16BE_ok by side.
      rewrite byte_at_head, byte_at_second by trivial.
      cbn [fst]. do 2 f_equal. words_lia.
Qed.

Lemma typed_reads_decode_witness :
  fst (ReadRegU8 (scripted None 0 None [0x92; 0x34; 0x56] None) conn3 0 opened)
  = Ret (0x92, None)
  /\ fst (ReadRegU16BE (scripted None 0 None [0x92; 0x34; 0x56] None)
                       conn3 0 opened)
     = Ret (0x9234, None)
  /\ fst (ReadRegS16BE (scripted None 0 None [0x92; 0x34; 0x56] None)
                       conn3 0 opened)
     = Ret (0x9234 - 65536, None).
Proof.
  assert (H0 : U8.ok 0x92) by (unfold U8.ok; lia).
  assert (H1 : U8.ok 0x34) by (unfold U8.ok; lia).
  pose proof (typed_reads_decode
                (scripted None 0 None [0x92; 0x34; 0x56] None)
                conn3 0 opened 1 0x92 0x34 H0 H1 eq_refl) as [Ha Hb].
  split; [exact (Ha [0x34; 0x56] eq_refl) | exact (Hb [0x56] eq_refl)].
Defined.

(** X18.  Whatever the operating system answers, a typed read never panics,
    the value it returns fits the declared type ([byte], [uint16],
    [int16]), and that value is 0 whenever an error is returned. *)
Theorem typed_reads_fit K v reg w :
  fits U8.ok (fst (ReadRegU8 K v reg w))
  /\ fits U16.ok (fst (ReadRegU16BE K v reg w))
  /\ fits U16.ok (fst (ReadRegU16LE K v reg w))
  /\ fits I16.ok (fst (ReadRegS16BE K v reg w))
  /\ fits I16.ok (fst (ReadRegS16LE K v reg w)).
Proof.
  destruct (k_write K (trace w) (Fd (rc v)) [reg]) as [c [e|]] eqn:Hw.
  { erewrite ReadRegU8_nack, ReadRegU16BE_nack, ReadRegU16LE_nack,
      ReadRegS16BE_nack, ReadRegS16LE_nack by side.
    cbn [fst fits]. repeat split; words_lia. }
  repeat split.
  - destruct (k_read K (trace (log (EvWrite (Fd (rc v)) [reg]) w)) (Fd (rc v)) 1)
      as [[|b rest] [e|]] eqn:Hr.
    + erewrite ReadRegU8_read_error by side. cbn [fst fits]. split; [words_lia | trivial].
    + erewrite ReadRegU8_eof by side. cbn [fst fits]. split; [words_lia | trivial].
    + erewrite ReadRegU8_read_error by side. cbn [fst fits]. split; [words_lia | trivial].
    + erewrite ReadRegU8_ok by side. cbn [fst fits].
      split; [apply byte_at_ok | congruence].
  - destruct (k_read K (trace (log (EvWrite (Fd (rc v)) [reg]) w)) (Fd (rc v)) 2)
      as [[|b rest] [e|]] eqn:Hr.
    + erewrite ReadRegU16BE_read_error by side. cbn [fst fits]. split; [words_lia | trivial].
    + erewrite ReadRegU16BE_eof by side. cbn [fst fits]. split; [words_lia | trivial].
    + erewrite ReadRegU16BE_read_error by side. cbn [fst fits]. split; [words_lia | trivial].
    + erewrite ReadRegU16BE_ok by side. cbn [fst fits].
      pose proof (byte_at_ok (b :: rest) 0). pose proof (byte_at_ok (b :: rest) 1).
      split; [words_lia | congruence].
  - destruct (k_read K (trace (log (EvWrite (Fd (rc v)) [reg]) w)) (Fd (rc v)) 2)
      as [[|b rest] [e|]] eqn:Hr.
    + erewrite ReadRegU16LE_read_error by side. cbn [fst fits]. split; [words_lia | trivial].
    + erewrite ReadRegU16LE_eof by side. cbn [fst fits]. split; [words_lia | trivial].
    + erewrite ReadRegU16LE_read_error by side. cbn [fst fits]. split; [words_lia | trivial].
    + erewrite ReadRegU16LE_ok by side. cbn [fst fits].
      pose proof (byte_at_ok (b :: rest) 0). pose proof (byte_at_ok (b :: rest) 1).
      split; [apply swap_ok; words_lia | congruence].
  - destruct (k_read K (trace (log (EvWrite (Fd (rc v)) [reg]) w)) (Fd (rc v)) 2)
      as [[|b rest] [e|]] eqn:Hr.
    + erewrite ReadRegS16BE_read_error by side. cbn [fst fits]. split; [words_lia | trivial].
    + erewrite ReadRegS16BE_eof by side. cbn [fst fits]. split; [words_lia | trivial].
    + erewrite ReadRegS16BE_read_error by side. cbn [fst fits]. split; [words_lia | trivial].
    + erewrite ReadRegS16BE_ok by side. cbn [fst fits].
      pose proof (byte_at_ok (b :: rest) 0). pose proof (byte_at_ok (b :: rest) 1).
      split; [words_lia | congruence].
  - destruct (k_read K (trace (log (EvWrite (Fd (rc v)) [reg]) w)) (Fd (rc v)) 2)
      as [[|b rest] [e|]] eqn:Hr.
    + erewrite ReadRegS16LE_read_error by side. cbn [fst fits]. split; [words_lia | trivial].
    + erewrite ReadRegS16LE_eof by side. cbn [fst fits]. split; [words_lia | trivial].
    + erewrite ReadRegS16LE_read_error by side. cbn [fst fits]. split; [words_lia | trivial].
    + erewrite ReadRegS16LE_ok by side. cbn [fst fits].
      pose proof (byte_at_ok (b :: rest) 0). pose proof (byte_at_ok (b :: rest) 1).
      split; [words_lia | congruence].
Qed.

Lemma swap_involutive x : U16.ok x -> Spec.swap (Spec.swap x) = x.
Proof.
  intros Hx. rewrite (swap_hi_lo (Spec.swap x)) by now apply swap_ok.
  rewrite (swap_hi_lo x) by trivial. words_lia.
Qed.

(** X12.  On the same device and state, [ReadRegS16BE] makes the calls of
    [ReadRegU16BE] and returns the same error, or the same word read as
    two's complement. *)
Theorem ReadRegS16BE_signed_ReadRegU16BE K v reg w :
  ReadRegS16BE K v reg w = map_value Spec.signed (ReadRegU16BE K v reg w).
Proof.
  destruct (k_write K (trace w) (Fd (rc v)) [reg]) as [c [e|]] eqn:Hw.
  { now erewrite ReadRegS16BE_nack, ReadRegU16BE_nack by side. }
  destruct (k_read K (trace (log (EvWrite (Fd (rc v)) [reg]) w)) (Fd (rc v)) 2)
    as [[|b rest] [e|]] eqn:Hr.
  - now erewrite ReadRegS16BE_read_error, ReadRegU16BE_read_error
      by side.
  - now erewrite ReadRegS16BE_eof, ReadRegU16BE_eof by side.
  - now erewrite ReadRegS16BE_read_error, ReadRegU16BE_read_error
      by side.
  - now erewrite ReadRegS16BE_ok, ReadRegU16BE_ok by side.
Qed.

(** X13.  On the same device and state, [ReadRegU16LE] makes the calls of
    [ReadRegU16BE] and returns the same error, or the word with its two
    bytes exchanged as the specification's swap does; exchanging the bytes
    of the little-endian result gives the big-endian result back. *)
Theorem ReadRegU16LE_swaps_ReadRegU16BE K v reg w :
  ReadRegU16LE K v reg w = map_value Spec.swap (ReadRegU16BE K v reg w)
  /\ ReadRegU16BE K v reg w = map_value Spec.swap (ReadRegU16LE K v reg w).
Proof.
  destruct (k_write K (trace w) (Fd (rc v)) [reg]) as [c [e|]] eqn:Hw.
  { now erewrite ReadRegU16LE_nack, ReadRegU16BE_nack by side. }
  destruct (k_read K (trace (log (EvWrite (Fd (rc v)) [reg]) w)) (Fd (rc v)) 2)
    as [[|b rest] [e|]] eqn:Hr.
  - now erewrite ReadRegU16LE_read_error, ReadRegU16BE_read_error
      by side.
  - now erewrite ReadRegU16LE_eof, ReadRegU16BE_eof by side.
  - now erewrite ReadRegU16LE_read_error, ReadRegU16BE_read_error
      by side.
  - erewrite ReadRegU16LE_ok, ReadRegU16BE_ok by side.
    cbn [map_value]. split; [reflexivity |].
    rewrite swap_involutive; [reflexivity |].
    pose proof (byte_at_ok (b :: rest) 0). pose proof (byte_at_ok (b :: rest) 1).
    words_lia.
Qed.

(** X14.  When the device answers the two bytes [b0, b1], [ReadRegS16LE]
    returns the little-endian signed word, the two's complement reading of
    [b1 * 256 + b0], if and only if the first byte is below 0x80. *)
Theorem ReadRegS16LE_little_endian_iff K v reg w c b0 b1 :
  U8.ok b0 -> U8.ok b1 ->
  k_write K (trace w) (Fd (rc v)) [reg] = (c, None) ->
  k_read K (trace (log (EvWrite (Fd (rc v)) [reg]) w)) (Fd (rc v)) 2
  = ([b0; b1], None) ->
  fst (ReadRegS16LE K v reg w) = Ret (Spec.signed (b1 * 256 + b0), None)
  <-> b0 < 128.
Proof.
  intros H0 H1 Hw Hr. erewrite ReadRegS16LE_ok by side.
  rewrite byte_at_head, byte_at_second by trivial. cbn [fst].
  destruct (Z.ltb_spec b0 128) as [Hlt|Hge].
  - split; [trivial | reflexivity].
  - split; [| lia]. intros [= Heq]. revert Heq. words_lia.
Qed.

Lemma ReadRegS16LE_little_endian_iff_witness :
  fst (ReadRegS16LE (scripted None 0 None [0x34; 0x92] None) conn3 0 opened)
  = Ret (Spec.signed (0x92 * 256 + 0x34), None)
  <-> 0x34 < 128.
Proof.
  apply (ReadRegS16LE_little_endian_iff
           (scripted None 0 None [0x34; 0x92] None) conn3 0 opened 1 0x34 0x92).
  - unfold U8.ok. lia.
  - unfold U8.ok. lia.
  - reflexivity.
  - reflexivity.
Defined.

(** ** The buffer of [ReadRegBytes] *)

Lemma map_wrap_bytes data : Forall U8.ok data -> map U8.wrap data = data.
Proof.
  induction 1 as [|b data Hb _ IH]; cbn [map]; [reflexivity |].
  rewrite IH. f_equal. words_lia.
Qed.

(** X16.  When both transfers succeed, [ReadRegBytes reg n] returns a
    buffer of exactly [n] bytes and the count of bytes delivered, which is
    the smaller of [n] and what the device sent: the buffer starts with the
    delivered bytes and is zero from there on.  (A read that succeeds for
    [n > 0] has delivered at least one byte: with none it reports
    [io.EOF].) *)
Theorem ReadRegBytes_buffer K v reg n w c data :
  0 <= n ->
  Forall U8.ok data ->
  k_write K (trace w) (Fd (rc v)) [reg] = (c, None) ->
  k_read K (trace (log (EvWrite (Fd (rc v)) [reg]) w)) (Fd (rc v)) (Z.to_nat n)
  = (data, None) ->
  n = 0 \/ data <> [] ->
  exists buf cnt,
    fst (ReadRegBytes K v reg n w) = Ret (buf, cnt, None)
    /\ Z.of_nat (length buf) = n
    /\ cnt = Z.min n (Z.of_nat (length data))
    /\ buf = take (Z.to_nat n) data
             ++ replicate (Z.to_nat n - length data) 0.
Proof.
  intros Hn Hd Hw Hr Hne. erewrite ReadRegBytes_ok by side.
  eexists _, _. split; [reflexivity |].
  unfold fill. rewrite length_replicate, map_wrap_bytes by trivial.
  rewrite drop_replicate, !length_take.
  replace (Z.to_nat n - Z.to_nat n `min` length data)%nat
    with (Z.to_nat n - length data)%nat by lia.
  repeat split.
  - rewrite length_app, length_take, length_replicate. lia.
  - lia.
Qed.

Lemma ReadRegBytes_buffer_witness :
  exists buf cnt,
    fst (ReadRegBytes (scripted None 0 None [7; 8] None) conn3 0x10 4 opened)
    = Ret (buf, cnt, None)
    /\ Z.of_nat (length buf) = 4
    /\ cnt = Z.min 4 (Z.of_nat (length [7; 8]))
    /\ buf = take (Z.to_nat 4) [7; 8]
             ++ replicate (Z.to_nat 4 - length [7; 8]) 0.
Proof.
  apply (ReadRegBytes_buffer
           (scripted None 0 None [7; 8] None) conn3 0x10 4 opened 1 [7; 8]).
  - lia.
  - repeat constructor; unfold U8.ok; lia.
  - reflexivity.
  - reflexivity.
  - right. discriminate.
Defined.

(** X17.  With a negative count, [ReadRegBytes] panics in [make], but only
    after the index write has gone out and succeeded; when the index write
    fails it returns that error and does not panic. *)
Theorem ReadRegBytes_negative_count K v reg n w :
  n < 0 ->
  (forall c,
      k_write K (trace w) (Fd (rc v)) [reg] = (c, None) ->
      ReadRegBytes K v reg n w
      = (Panic "makeslice: len out of range",
         log (EvWrite (Fd (rc v)) [reg]) w))
  /\
  (forall c e,
      k_write K (trace w) (Fd (rc v)) [reg] = (c, Some e) ->
      ReadRegBytes K v reg n w
      = (Ret ([], 0, Some e), log (EvWrite (Fd (rc v)) [reg]) w)).
Proof.
  intros Hn. split.
  - intros c Hw. now apply ReadRegBytes_negative with (c := c).
  - intros c e Hw. now apply ReadRegBytes_nack with (c := c).
Qed.

Lemma ReadRegBytes_negative_count_witness :
  ReadRegBytes loopback conn3 0x10 (-1) opened
  = (Panic "makeslice: len out of range", log (EvWrite 3 [0x10]) opened)
  /\
  ReadRegBytes (scripted None 0 (Some (PathError "write" EREMOTEIO)) [] None)
               conn3 0x10 (-1) opened
  = (Ret ([], 0, Some (PathError "write" EREMOTEIO)),
     log (EvWrite 3 [0x10]) opened).
Proof.
  split.
  - apply (proj1 (ReadRegBytes_negative_count loopback conn3 0x10 (-1) opened
                    ltac:(lia)) 1).
    reflexivity.
  - apply (proj2 (ReadRegBytes_negative_count
                    (scripted None 0 (Some (PathError "write" EREMOTEIO)) [] None)
                    conn3 0x10 (-1) opened ltac:(lia)) 0).
    reflexivity.
Defined.

(** ** Round trips of the unsigned values *)

Lemma last_payload_loopback_read t fd r p r' :
  p <> [] ->
  last_payload fd (t ++ [EvWrite fd (r :: p)] ++ [EvWrite fd [r']]) = p.
Proof.
  destruct p as [|b p]; [congruence | intros _].
  apply last_payload_after_index.
Qed.

(** X10.  For every byte [value] and every register index, [WriteRegU8]
    followed by [ReadRegU8] on a loopback device returns [value]. *)
Theorem U8_loopback_roundtrip v reg value w :
  U8.ok value ->
  fst (roundtrip_U8 loopback v reg value w) = Ret (value, None).
Proof.
  intros Hv. unfold roundtrip_U8, bind.
  rewrite WriteRegU8_run. cbn [loopback k_write snd].
  erewrite (ReadRegU8_ok loopback) with (c := 1); [| reflexivity | |].
  2: { cbn [loopback k_read log trace]. rewrite <- app_assoc.
       rewrite last_payload_loopback_read by discriminate. reflexivity. }
  2: { cbn [take]. discriminate. }
  cbn [fst take]. now rewrite byte_at_head.
Qed.

Lemma U8_loopback_roundtrip_witness :
  fst (roundtrip_U8 loopback conn3 0x01 0x60 opened) = Ret (0x60, None).
Proof.
  apply (U8_loopback_roundtrip conn3 0x01 0x60 opened).
  unfold U8.ok. lia.
Defined.

(** X9.  For every unsigned 16-bit [value] and every register index,
    [WriteRegU16BE] followed by [ReadRegU16BE] on a loopback device returns
    [value]. *)
Theorem U16BE_loopback_roundtrip v reg value w :
  U16.ok value ->
  fst (roundtrip_U16BE loopback v reg value w) = Ret (value, None).
Proof.
  intros Hv. unfold roundtrip_U16BE, bind.
  rewrite WriteRegU16BE_run. cbn [loopback k_write snd].
  erewrite (ReadRegU16BE_ok loopback) with (c := 1); [| reflexivity | |].
  2: { cbn [loopback k_read log trace]. rewrite <- app_assoc.
       rewrite last_payload_loopback_read by discriminate. reflexivity. }
  2: { cbn [take]. discriminate. }
  cbn [fst take]. unfold byte_at. cbn [nth]. do 2 f_equal. words_lia.
Qed.

Lemma U16BE_loopback_roundtrip_witness :
  fst (roundtrip_U16BE loopback conn3 0x00 0xFFFE opened) = Ret (0xFFFE, None).
Proof.
  apply (U16BE_loopback_roundtrip conn3 0x00 0xFFFE opened).
  unfold U16.ok. lia.
Defined.
